(** * TSinglePeak: composition of a peak shape, its background and a shared
      global background (GRSISort, libraries/TGRSIAnalysis/TPeakFitting)

    A shallow embedding of [TSinglePeak.cxx].  The methods of the class are
    written in a small monad over a world that holds the object's members, a
    heap of [TF1] function objects, the standard error stream and the pad that
    receives drawn curves.  A method ends normally ([Ok]), with a C++ exception
    in flight ([Throw]), in undefined behaviour ([Fault]), or the model gives up
    on a bottomless recursion ([Timeout]). *)

From Stdlib Require Import ZArith PrimFloat.
From stdpp Require Import gmap list strings pretty.

Local Open Scope Z_scope.

(** ** Scalar types of ROOT *)

(** [Double_t] is an IEEE 754 binary64 number. *)
Abbreviation Double_t := float (only parsing).

(** [Int_t] is a 32-bit signed integer, carried in [Z]. *)
Abbreviation Int_t := Z (only parsing).

Definition Int_t_min : Z := - 2 ^ 31.
Definition Int_t_max : Z := 2 ^ 31 - 1.

Definition in_Int_t (n : Z) : Prop := Int_t_min <= n <= Int_t_max.

(** Conversion of an [Int_t] to the unsigned 64-bit [size_type] that
    [std::vector::at] takes: a negative value wraps around. *)
Definition size_type_of_Int_t (n : Z) : Z := n mod 2 ^ 64.

(** No [std::vector] holds more elements than [PTRDIFF_MAX]. *)
Definition vector_max_size : Z := 2 ^ 63 - 1.

(** Addresses of heap objects; a pointer is an [option] of an address, the
    null pointer being [None]. *)
Abbreviation addr := positive (only parsing).
Abbreviation ptr := (option positive) (only parsing).

(** ** The [TF1] function object of ROOT *)

(** The member functions of [TSinglePeak] that the file hands to a [TF1]. *)
Inductive Method : Type :=
| M_TotalFunction
| M_BackgroundFunction
| M_PeakOnGlobalFunction.

(** What a [TF1] evaluates: a function supplied from outside, or a member
    function of the peak object bound to [this]. *)
Inductive Functor : Type :=
| ExternalFn (f : list Double_t → list Double_t → Double_t)
| MemberFn (m : Method).

Record TF1 : Type := mkTF1 {
  fName : string;
  fFunctor : Functor;
  fXmin : Double_t;
  fXmax : Double_t;
  fParams : list Double_t;
  fLineColor : Z;
  fLineStyle : Z
}.

Definition GetNpar (f : TF1) : Int_t := Z.of_nat (length (fParams f)).

Definition GetRange (f : TF1) : Double_t * Double_t := (fXmin f, fXmax f).

Definition GetLineColor (f : TF1) : Z := fLineColor f.
Definition GetLineStyle (f : TF1) : Z := fLineStyle f.

Definition SetLineColor (c : Z) (f : TF1) : TF1 :=
  mkTF1 (fName f) (fFunctor f) (fXmin f) (fXmax f) (fParams f) c (fLineStyle f).

Definition SetLineStyle (s : Z) (f : TF1) : TF1 :=
  mkTF1 (fName f) (fFunctor f) (fXmin f) (fXmax f) (fParams f) (fLineColor f) s.

Definition with_params (ps : list Double_t) (f : TF1) : TF1 :=
  mkTF1 (fName f) (fFunctor f) (fXmin f) (fXmax f) ps (fLineColor f) (fLineStyle f).

(** [TF1::GetParameter] answers 0 for an index that is not a parameter. *)
Definition GetParameter (f : TF1) (i : Int_t) : Double_t :=
  if bool_decide (0 <= i < GetNpar f)
  then default 0%float (fParams f !! Z.to_nat i)
  else 0%float.

(** [TF1::SetParameter] ignores an index that is not a parameter. *)
Definition SetParameter (i : Int_t) (v : Double_t) (f : TF1) : TF1 :=
  if bool_decide (0 <= i < GetNpar f)
  then with_params (<[Z.to_nat i := v]> (fParams f)) f
  else f.

(** [TF1::GetParameters] hands out the parameter array. *)
Definition GetParameters (f : TF1) : list Double_t := fParams f.

(** [TF1::SetParameters], given a pointer to an array of [Double_t], copies
    as many values as the function has parameters from that array; [None]
    when the array is shorter than that (a read past its end). *)
Definition SetParameters (src : list Double_t) (f : TF1) : option TF1 :=
  if bool_decide (length (fParams f) ≤ length src)%nat
  then Some (with_params (take (length (fParams f)) src) f)
  else None.

(** ** The peak object *)

(** Modelled from the spec: the data members of [TSinglePeak], declared in
    TSinglePeak.h (not part of the sources at hand): three nullable pointers
    to function objects and the classification table, one boolean per
    parameter, [true] for a background parameter. *)
Record TSinglePeak : Type := mkTSinglePeak {
  fTotalFunction : ptr;
  fBackgroundFunction : ptr;
  fGlobalBackground : ptr;
  fListOfBGPars : list bool
}.

(** Modelled from the spec: the two pure virtual members [PeakFunction] and
    [BackgroundFunction] of [TSinglePeak], declared in TSinglePeak.h and
    implemented by the concrete peak shapes; each is a pure function of the
    coordinate array and the flat parameter array. *)
Class PeakShape : Type := {
  PeakFunction : list Double_t → list Double_t → Double_t;
  BackgroundFunction : list Double_t → list Double_t → Double_t
}.

(** ** The world and the monad of methods *)

Record World : Type := mkWorld {
  self : TSinglePeak;                 (* the members of [*this] *)
  heap : gmap positive TF1;           (* the live [TF1] objects *)
  cerr : list string;                 (* lines written to [std::cerr] *)
  gPad : list (string * TF1);         (* curves drawn so far, with their option *)
  gStyle_FuncColor : Z;               (* line colour a new [TF1] starts with *)
  gStyle_FuncStyle : Z                (* line style a new [TF1] starts with *)
}.

Definition set_self (p : TSinglePeak) (w : World) : World :=
  mkWorld p (heap w) (cerr w) (gPad w) (gStyle_FuncColor w) (gStyle_FuncStyle w).

Definition set_heap (h : gmap positive TF1) (w : World) : World :=
  mkWorld (self w) h (cerr w) (gPad w) (gStyle_FuncColor w) (gStyle_FuncStyle w).

Definition set_cerr (l : list string) (w : World) : World :=
  mkWorld (self w) (heap w) l (gPad w) (gStyle_FuncColor w) (gStyle_FuncStyle w).

Definition set_gPad (l : list (string * TF1)) (w : World) : World :=
  mkWorld (self w) (heap w) (cerr w) l (gStyle_FuncColor w) (gStyle_FuncStyle w).

Inductive exn : Type :=
| out_of_range.

Inductive fault : Type :=
| NullDeref          (* a member is reached through a null pointer *)
| DanglingDeref      (* a member is reached through a pointer to no live object *)
| OutOfBounds        (* an array is read past its end *)
| SignedOverflow.    (* an [Int_t] sum leaves the 32-bit range *)

Inductive outcome (A : Type) : Type :=
| Ok (a : A) (w : World)
| Throw (e : exn) (w : World)
| Fault (f : fault)
| Timeout.

Arguments Ok {A} a w.
Arguments Throw {A} e w.
Arguments Fault {A} f.
Arguments Timeout {A}.

Definition M (A : Type) : Type := World → outcome A.

#[global] Instance M_ret : MRet M := λ A a w, Ok a w.

#[global] Instance M_bind : MBind M := λ A B k c w,
  match c w with
  | Ok a w' => k a w'
  | Throw e w' => Throw e w'
  | Fault f => Fault f
  | Timeout => Timeout
  end.

Definition get {A : Type} (proj : World → A) : M A := λ w, Ok (proj w) w.

Definition throw {A : Type} (e : exn) : M A := λ w, Throw e w.

Definition undefined {A : Type} (f : fault) : M A := λ _, Fault f.

Definition timeout {A : Type} : M A := λ _, Timeout.

(** [try { c } catch (const E&) { h }] *)
Definition try_catch {A : Type} (c : M A) (h : exn → M A) : M A := λ w,
  match c w with
  | Throw e w' => h e w'
  | r => r
  end.

(** Reading the object behind a pointer. *)
Definition load (p : ptr) : M TF1 := λ w,
  match p with
  | None => Fault NullDeref
  | Some a =>
      match heap w !! a with
      | Some f => Ok f w
      | None => Fault DanglingDeref
      end
  end.

Definition modify_heap (g : gmap positive TF1 → gmap positive TF1) : M unit :=
  λ w, Ok tt (set_heap (g (heap w)) w).

(** Calling a mutator of the object behind a pointer. *)
Definition update (p : ptr) (g : TF1 → TF1) : M unit :=
  f ← load p;
  match p return M unit with
  | Some a => modify_heap (insert a (g f))
  | None => undefined NullDeref
  end.

(** [new] places the object at an address that holds no live object and
    never answers the null pointer. *)
Definition new (f : TF1) : M ptr := λ w,
  let a := fresh (dom (heap w)) in
  Ok (Some a) (set_heap (<[a := f]> (heap w)) w).

(** [std::vector::at]: bounds-checked access. *)
Definition vector_at {A : Type} (v : list A) (n : Z) : M A :=
  if bool_decide (n < Z.of_nat (length v))
  then match v !! Z.to_nat n with
       | Some x => mret x
       | None => throw out_of_range
       end
  else throw out_of_range.

(** [std::cerr << ... << std::endl] *)
Definition cerr_line (s : string) : M unit := λ w,
  Ok tt (set_cerr (cerr w ++ [s]) w).

(** [Int_t] addition; leaving the range is undefined. *)
Definition Int_add (a b : Int_t) : M Int_t :=
  if bool_decide (in_Int_t (a + b)) then mret (a + b) else undefined SignedOverflow.

(** [for (int i = ...; ...; ++i) body], the indices listed in order. *)
Fixpoint for_ (idx : list Z) (body : Z → M unit) : M unit :=
  match idx with
  | [] => mret tt
  | i :: rest => body i ;; for_ rest body
  end.

(** The [TF1] constructor that binds a member function: the range and the
    number of parameters are as given, every parameter starts at 0 and the
    line attributes come from the current style. *)
Definition TF1_ctor (name : string) (fn : Functor) (xmin xmax : Double_t)
    (npar : Int_t) : M TF1 := λ w,
  Ok (mkTF1 name fn xmin xmax (replicate (Z.to_nat npar) 0%float)
            (gStyle_FuncColor w) (gStyle_FuncStyle w)) w.

(** [TF1::Draw]: the curve, as it is at this moment, goes to the pad. *)
Definition gPad_append (opt : string) (f : TF1) : M unit :=
  λ w, Ok tt (set_gPad (gPad w ++ [(opt, f)]) w).

Definition TF1_Draw (p : ptr) (opt : string) : M unit :=
  f ← load p;
  gPad_append opt f.

(** [TObject::Delete]: the object behind the pointer is destroyed. *)
Definition TObject_Delete (p : ptr) : M unit :=
  _ ← load p;
  match p return M unit with
  | Some a => modify_heap (delete a)
  | None => undefined NullDeref
  end.

(** ** The methods of [TSinglePeak] *)

Definition this {A : Type} (member : TSinglePeak → A) : M A :=
  get (λ w, member (self w)).

Definition set_fBackgroundFunction (p : ptr) : M unit := λ w,
  Ok tt (set_self (mkTSinglePeak (fTotalFunction (self w)) p
                     (fGlobalBackground (self w)) (fListOfBGPars (self w))) w).

(** [fTotalFunction->...] and [fGlobalBackground->...]: the member is read
    and the pointer followed. *)
Definition total : M TF1 := p ← this fTotalFunction; load p.
Definition global : M TF1 := p ← this fGlobalBackground; load p.

Definition IsBackgroundParameter (par : Int_t) : M bool :=
  try_catch
    (v ← this fListOfBGPars; vector_at v (size_type_of_Int_t par))
    (λ oor,
       match oor return M bool with
       | out_of_range =>
           cerr_line ("Parameter not in list: " +:+ pretty par);;
           mret true
       end).

Definition IsPeakParameter (par : Int_t) : M bool :=
  b ← IsBackgroundParameter par;
  mret (negb b).

Definition GetNParameters : M Int_t :=
  p ← this fTotalFunction;
  match p return M Int_t with
  | Some _ => f ← load p; mret (GetNpar f)
  | None => mret 0
  end.

Definition GetBackgroundFunction : M ptr :=
  p ← this fBackgroundFunction;
  match p return M unit with
  | None =>
      tf ← total;
      f ← TF1_ctor "peak_bg" (MemberFn M_BackgroundFunction) 0 1 (GetNpar tf);
      q ← new f;
      set_fBackgroundFunction q;;
      bg ← this fBackgroundFunction;
      update bg (SetLineStyle 9)
  | Some _ => mret tt
  end;;
  this fBackgroundFunction.

Definition UpdateBackgroundParameters : M unit :=
  tf ← total;
  bg ← this fBackgroundFunction;
  f ← load bg;
  match SetParameters (GetParameters tf) f return M unit with
  | Some f' => update bg (λ _, f')
  | None => undefined OutOfBounds
  end.

Section Shape.
Context `{PeakShape}.

Definition TotalFunction (dim par : list Double_t) : Double_t :=
  (PeakFunction dim par + BackgroundFunction dim par)%float.

(** The body of [PeakOnGlobalFunction], over the evaluator [eval] of the
    function object it calls.  [&par[n]] is the array from its [n]-th
    element on. *)
Definition PeakOnGlobalFunction_body
    (eval : TF1 → list Double_t → list Double_t → M Double_t)
    (dim par : list Double_t) : M Double_t :=
  g ← this fGlobalBackground;
  match g return M Double_t with
  | None => mret 0%float
  | Some _ =>
      tf ← total;
      gb ← load g;
      v ← eval gb dim (drop (Z.to_nat (GetNpar tf)) par);
      mret (PeakFunction dim par + v)%float
  end.

(** [TF1::EvalPar]: the function object applies what it was built on to
    the coordinates and the parameters it is given.  A function object
    built on [PeakOnGlobalFunction] calls back into the peak; [fuel] bounds
    the depth of such calls. *)
Fixpoint EvalPar (fuel : nat) (f : TF1) (dim par : list Double_t) : M Double_t :=
  match fuel with
  | O => timeout
  | S fuel' =>
      match fFunctor f with
      | ExternalFn h => mret (h dim par)
      | MemberFn M_TotalFunction => mret (TotalFunction dim par)
      | MemberFn M_BackgroundFunction => mret (BackgroundFunction dim par)
      | MemberFn M_PeakOnGlobalFunction =>
          PeakOnGlobalFunction_body (EvalPar fuel') dim par
      end
  end.

Definition PeakOnGlobalFunction (fuel : nat) (dim par : list Double_t) : M Double_t :=
  PeakOnGlobalFunction_body (EvalPar fuel) dim par.

End Shape.

(** [Draw].  Both loops run over the indices below a parameter count that
    their bodies leave alone ([SetParameter] never changes the number of
    parameters), so each bound is read once, on entry. *)
Definition Draw (opt : string) : M unit :=
  g ← this fGlobalBackground;
  match g return M unit with
  | None => mret tt
  | Some _ =>
      gb ← global;
      let '(low, high) := GetRange gb in
      tf ← total;
      gb ← global;
      npar ← Int_add (GetNpar tf) (GetNpar gb);
      f ← TF1_ctor "draw_peak" (MemberFn M_PeakOnGlobalFunction) low high npar;
      tmp_func ← new f;
      tf ← total;
      for_ (seqZ 0 (GetNpar tf)) (λ i,
        tf ← total;
        update tmp_func (SetParameter i (GetParameter tf i)));;
      gb ← global;
      for_ (seqZ 0 (GetNpar gb)) (λ i,
        tf ← total;
        j ← Int_add i (GetNpar tf);
        gb ← global;
        update tmp_func (SetParameter j (GetParameter gb i)));;
      tf ← total;
      update tmp_func (SetLineColor (GetLineColor tf));;
      tf ← total;
      update tmp_func (SetLineStyle (GetLineStyle tf));;
      TF1_Draw tmp_func opt;;
      TObject_Delete tmp_func
  end.

(** [raises c w]: the call [c], made in the world [w], ends with an
    exception in flight. *)
Definition raises {A : Type} (c : M A) (w : World) : Prop :=
  ∃ e w', c w = Throw e w'.

(** The function object that the first call of [GetBackgroundFunction] builds,
    for a total function of [npar] parameters. *)
Definition peak_bg (npar : Int_t) (w : World) : TF1 :=
  mkTF1 "peak_bg" (MemberFn M_BackgroundFunction) 0 1
        (replicate (Z.to_nat npar) 0%float) (gStyle_FuncColor w) 9.

(** The temporary curve that [Draw] hands to the pad, given the total
    function and the global background. *)
Definition draw_peak (tf gb : TF1) : TF1 :=
  mkTF1 "draw_peak" (MemberFn M_PeakOnGlobalFunction) (fXmin gb) (fXmax gb)
        (fParams tf ++ fParams gb) (GetLineColor tf) (GetLineStyle tf).

(** [reads_only n f]: the function [f] looks at no parameter beyond the first
    [n] of the array it is given. *)
Definition reads_only (n : nat) (f : list Double_t → list Double_t → Double_t) : Prop :=
  ∀ dim p q, take n p = take n q → f dim p = f dim q.

(** The world after the classifier has complained about [par]. *)
Definition warned (par : Int_t) (w : World) : World :=
  set_cerr (cerr w ++ ["Parameter not in list: " +:+ pretty par]) w.

(** ** A concrete peak: the three-parameter shape and the two-parameter
       global background used to run the methods *)

Module Demo.

Definition x_of (dim : list Double_t) : Double_t := default 0%float (dim !! 0%nat).
Definition p_of (par : list Double_t) (i : nat) : Double_t := default 0%float (par !! i).

(** One peak parameter, the amplitude [A] of a bump centred at 3, and two
    background parameters, offset [b0] and slope [b1]. *)
#[local] Instance shape : PeakShape := {|
  PeakFunction dim par :=
    (p_of par 0 / (1 + (x_of dim - 3) * (x_of dim - 3)))%float;
  BackgroundFunction dim par :=
    (p_of par 1 + p_of par 2 * x_of dim)%float
|}.

(** A straight line [g0 + g1 * x], supplied from outside. *)
Definition line (dim par : list Double_t) : Double_t :=
  (p_of par 0 + p_of par 1 * x_of dim)%float.

Definition total_fn : TF1 :=
  mkTF1 "demo_total" (MemberFn M_TotalFunction) 0 10 [10; 2; 0.5]%float 2 1.

Definition global_fn : TF1 :=
  mkTF1 "global_bg" (ExternalFn line) 0 100 [1; 1]%float 4 2.

(** The peak as a fit leaves it: total function at address 1, no
    background function yet, no global background. *)
Definition fitted : World :=
  mkWorld (mkTSinglePeak (Some 1%positive) None None [false; true; true])
          {[ 1%positive := total_fn ]} [] [] 2 1.

(** The same with the global background attached, at address 2. *)
Definition on_global : World :=
  mkWorld (mkTSinglePeak (Some 1%positive) None (Some 2%positive) [false; true; true])
          (<[ 2%positive := global_fn ]> {[ 1%positive := total_fn ]}) [] [] 2 1.

(** The background function as [GetBackgroundFunction] builds it for this
    peak, before any parameter is copied into it. *)
Definition background_fn : TF1 :=
  mkTF1 "peak_bg" (MemberFn M_BackgroundFunction) 0 1 [0; 0; 0]%float 2 9.

(** The fitted peak once its background function is cached, at address 2. *)
Definition with_background : World :=
  mkWorld (mkTSinglePeak (Some 1%positive) (Some 2%positive) None [false; true; true])
          (<[ 2%positive := background_fn ]> {[ 1%positive := total_fn ]}) [] [] 2 1.

(** A peak whose shape has not been set up: every pointer is null. *)
Definition blank : World :=
  mkWorld (mkTSinglePeak None None None []) ∅ [] [] 2 1.

(** Global background attached before the total function exists. *)
Definition global_only : World :=
  mkWorld (mkTSinglePeak None None (Some 2%positive) [])
          {[ 2%positive := global_fn ]} [] [] 2 1.

End Demo.

(** ** TBGOData: the hits of the BGO suppressors (include/TBGOData.h) *)

Module BGOData.

(** The vectors of the class, one entry per hit in each; [UShort_t],
    [Short_t] and [Int_t] values are carried in [Z]. *)
Record TBGOData : Type := mkTBGOData {
  fBGO_CloverNbr : list Z;
  fBGO_CrystalNbr : list Z;
  fBGO_PmNbr : list Z;
  fBGO_Charge : list Z;
  fBGO_Energy : list Double_t;
  fBGO_TimeCFD : list Double_t;
  fBGO_TimeLED : list Double_t;
  fBGO_Time : list Double_t;
  fBGO_Wave : list (list Z)
}.

(** The setters: each is a [push_back] on one vector. *)
Definition SetBGOCloverNbr (x : Z) (d : TBGOData) : TBGOData :=
  mkTBGOData (fBGO_CloverNbr d ++ [x]) (fBGO_CrystalNbr d) (fBGO_PmNbr d)
             (fBGO_Charge d) (fBGO_Energy d) (fBGO_TimeCFD d) (fBGO_TimeLED d)
             (fBGO_Time d) (fBGO_Wave d).

Definition SetBGOCrystalNbr (x : Z) (d : TBGOData) : TBGOData :=
  mkTBGOData (fBGO_CloverNbr d) (fBGO_CrystalNbr d ++ [x]) (fBGO_PmNbr d)
             (fBGO_Charge d) (fBGO_Energy d) (fBGO_TimeCFD d) (fBGO_TimeLED d)
             (fBGO_Time d) (fBGO_Wave d).

Definition SetBGOPmNbr (x : Z) (d : TBGOData) : TBGOData :=
  mkTBGOData (fBGO_CloverNbr d) (fBGO_CrystalNbr d) (fBGO_PmNbr d ++ [x])
             (fBGO_Charge d) (fBGO_Energy d) (fBGO_TimeCFD d) (fBGO_TimeLED d)
             (fBGO_Time d) (fBGO_Wave d).

Definition SetBGOCharge (x : Z) (d : TBGOData) : TBGOData :=
  mkTBGOData (fBGO_CloverNbr d) (fBGO_CrystalNbr d) (fBGO_PmNbr d)
             (fBGO_Charge d ++ [x]) (fBGO_Energy d) (fBGO_TimeCFD d) (fBGO_TimeLED d)
             (fBGO_Time d) (fBGO_Wave d).

Definition SetBGOEnergy (x : Double_t) (d : TBGOData) : TBGOData :=
  mkTBGOData (fBGO_CloverNbr d) (fBGO_CrystalNbr d) (fBGO_PmNbr d)
             (fBGO_Charge d) (fBGO_Energy d ++ [x]) (fBGO_TimeCFD d) (fBGO_TimeLED d)
             (fBGO_Time d) (fBGO_Wave d).

Definition SetBGOCFD (x : Double_t) (d : TBGOData) : TBGOData :=
  mkTBGOData (fBGO_CloverNbr d) (fBGO_CrystalNbr d) (fBGO_PmNbr d)
             (fBGO_Charge d) (fBGO_Energy d) (fBGO_TimeCFD d ++ [x]) (fBGO_TimeLED d)
             (fBGO_Time d) (fBGO_Wave d).

Definition SetBGOLED (x : Double_t) (d : TBGOData) : TBGOData :=
  mkTBGOData (fBGO_CloverNbr d) (fBGO_CrystalNbr d) (fBGO_PmNbr d)
             (fBGO_Charge d) (fBGO_Energy d) (fBGO_TimeCFD d) (fBGO_TimeLED d ++ [x])
             (fBGO_Time d) (fBGO_Wave d).

Definition SetBGOTime (x : Double_t) (d : TBGOData) : TBGOData :=
  mkTBGOData (fBGO_CloverNbr d) (fBGO_CrystalNbr d) (fBGO_PmNbr d)
             (fBGO_Charge d) (fBGO_Energy d) (fBGO_TimeCFD d) (fBGO_TimeLED d)
             (fBGO_Time d ++ [x]) (fBGO_Wave d).

Definition SetBGOWave (x : list Z) (d : TBGOData) : TBGOData :=
  mkTBGOData (fBGO_CloverNbr d) (fBGO_CrystalNbr d) (fBGO_PmNbr d)
             (fBGO_Charge d) (fBGO_Energy d) (fBGO_TimeCFD d) (fBGO_TimeLED d)
             (fBGO_Time d) (fBGO_Wave d ++ [x]).

(** [SetBGO] on eight values: the eight setters, in the order of the code. *)
Definition SetBGO (BGOCloverNbr BGOCrystalNbr BGOPmNbr BGOCharge : Z)
    (BGOEnergy BGOTimeCFD BGOTimeLED BGOTime : Double_t) (d : TBGOData) : TBGOData :=
  SetBGOTime BGOTime
    (SetBGOLED BGOTimeLED
       (SetBGOCFD BGOTimeCFD
          (SetBGOEnergy BGOEnergy
             (SetBGOCharge BGOCharge
                (SetBGOPmNbr BGOPmNbr
                   (SetBGOCrystalNbr BGOCrystalNbr
                      (SetBGOCloverNbr BGOCloverNbr d))))))).

(** A member function ends by returning or with an exception in flight; the
    object is left as it is at that point. *)
Inductive result (A : Type) : Type :=
| Returns (a : A) (d : TBGOData)
| Throws (e : exn) (d : TBGOData).

Arguments Returns {A} a d.
Arguments Throws {A} e d.

(** What a call returned, if it did. *)
Definition returned {A : Type} (r : result A) : option A :=
  match r with
  | Returns a _ => Some a
  | Throws _ _ => None
  end.

(** [std::vector::at] with an unsigned index. *)
Definition at_ {A : Type} (v : list A) (i : N) (d : TBGOData) : result A :=
  match v !! N.to_nat i with
  | Some x => Returns x d
  | None => Throws out_of_range d
  end.

(** The getters: bounds-checked reads of one vector each. *)
Definition GetBGOCloverNumber (i : N) (d : TBGOData) : result Z := at_ (fBGO_CloverNbr d) i d.
Definition GetBGOCoreNumber (i : N) (d : TBGOData) : result Z := at_ (fBGO_CrystalNbr d) i d.
Definition GetBGOPmNbr (i : N) (d : TBGOData) : result Z := at_ (fBGO_PmNbr d) i d.
Definition GetBGOCharge (i : N) (d : TBGOData) : result Z := at_ (fBGO_Charge d) i d.
Definition GetBGOEnergy (i : N) (d : TBGOData) : result Double_t := at_ (fBGO_Energy d) i d.
Definition GetBGOCFD (i : N) (d : TBGOData) : result Double_t := at_ (fBGO_TimeCFD d) i d.
Definition GetBGOLED (i : N) (d : TBGOData) : result Double_t := at_ (fBGO_TimeLED d) i d.
Definition GetBGOTime (i : N) (d : TBGOData) : result Double_t := at_ (fBGO_Time d) i d.
Definition GetBGOWave (i : N) (d : TBGOData) : result (list Z) := at_ (fBGO_Wave d) i d.

(** [GetBGOMultiplicity]: the size of the PM vector, cut to the 32 bits of
    [unsigned int]. *)
Definition GetBGOMultiplicity (d : TBGOData) : Z :=
  Z.of_nat (length (fBGO_PmNbr d)) mod 2 ^ 32.

(** [s.compare(0, 1, t) == 0]: the first character of [s], or nothing when
    [s] is empty, is compared with [t]. *)
Definition compare_0_1_is (s t : string) : bool :=
  match String.compare (String.substring 0 1 s) t with
  | Eq => true
  | _ => false
  end.

(** The crystal number that [SetBGO] reads off the array subposition. *)
Definition CrystalNbr_of (arraysubposition : string) : Z :=
  if compare_0_1_is arraysubposition "B" then 0
  else if compare_0_1_is arraysubposition "G" then 1
  else if compare_0_1_is arraysubposition "R" then 2
  else if compare_0_1_is arraysubposition "W" then 3
  else 5.

Section Fragment.

(** [TFragment] and [MNEMONIC] are declared in headers that are not at hand
    (TFragment.h, Globals.h).  They are parameters here, with the members
    that [SetBGO] reads, each seen at the type of the setter that receives
    it. *)
Variables (TFragment MNEMONIC : Type).
Variable arrayposition : MNEMONIC → Z.
Variable arraysubposition : MNEMONIC → string.
Variable segment : MNEMONIC → Z.
Variable Charge : TFragment → list Z.
Variable Cfd : TFragment → list Double_t.
Variable Led : TFragment → list Double_t.
Variable TimeToTrig : TFragment → Double_t.

(** [SetBGO] on a fragment.  The channel argument is not used. *)
Definition SetBGO_fragment (frag : TFragment) (mnemonic : MNEMONIC)
    (d : TBGOData) : result unit :=
  let d := SetBGOCloverNbr (arrayposition mnemonic) d in
  let CrystalNbr := CrystalNbr_of (arraysubposition mnemonic) in
  let d := SetBGOCrystalNbr CrystalNbr d in
  let d := SetBGOPmNbr (segment mnemonic) d in
  match at_ (Charge frag) 0 d with
  | Throws e d => Throws e d
  | Returns charge d =>
      let d := SetBGOCharge charge d in
      match at_ (Cfd frag) 0 d with
      | Throws e d => Throws e d
      | Returns cfd d =>
          let d := SetBGOCFD cfd d in
          match at_ (Led frag) 0 d with
          | Throws e d => Throws e d
          | Returns led d =>
              let d := SetBGOLED led d in
              Returns tt (SetBGOTime (TimeToTrig frag) d)
          end
      end
  end.

End Fragment.

(** The eight per-hit vectors that [SetBGO] fills have one length. *)
Definition aligned (n : nat) (d : TBGOData) : Prop :=
  length (fBGO_CloverNbr d) = n ∧ length (fBGO_CrystalNbr d) = n
  ∧ length (fBGO_PmNbr d) = n ∧ length (fBGO_Charge d) = n
  ∧ length (fBGO_Energy d) = n ∧ length (fBGO_TimeCFD d) = n
  ∧ length (fBGO_TimeLED d) = n ∧ length (fBGO_Time d) = n.

(** A fragment and a mnemonic with just the members read. *)
Record frag : Type := mkfrag {
  frag_Charge : list Z;
  frag_Cfd : list Double_t;
  frag_Led : list Double_t;
  frag_TimeToTrig : Double_t
}.

Record mnemonic : Type := mkmnemonic {
  mn_arrayposition : Z;
  mn_arraysubposition : string;
  mn_segment : Z
}.

Definition empty : TBGOData := mkTBGOData [] [] [] [] [] [] [] [] [].

Definition one_hit : TBGOData := SetBGO 3 1 2 1200 511.5 10.25 11.5 0 empty.

(** A fragment with one charge, CFD and LED value, the same fragment without
    its CFD value, and the mnemonic of a green crystal. *)
Definition full_frag : frag := mkfrag [850] [12.5%float] [13%float] 7%float.
Definition no_cfd_frag : frag := mkfrag [850] [] [13%float] 7%float.
Definition green : mnemonic := mkmnemonic 6 "GN" 3.

End BGOData.

(** ** TGRSIRunInfo: run-level information (include/TGRSIRunInfo.h) *)

Module GRSIRunInfo.

(** The members that [Add] reads and writes; [int] values in [Z]. *)
Record TGRSIRunInfo : Type := mkTGRSIRunInfo {
  fRunNumber : Z;
  fSubRunNumber : Z;
  fRunStart : Double_t;
  fRunStop : Double_t;
  fRunLength : Double_t
}.

(** The run length after [Add]: the first statement of the function. *)
Definition added_length (this runinfo : TGRSIRunInfo) : Double_t :=
  if (0 <? fRunLength runinfo)%float
  then if (0 <? fRunLength this)%float
       then (fRunLength this + fRunLength runinfo)%float
       else fRunLength runinfo
  else fRunLength this.

(** [Add].  [None] stands for the signed overflow of [fSubRunNumber + 1],
    which the code evaluates when the run numbers agree. *)
Definition Add (runinfo this : TGRSIRunInfo) : option TGRSIRunInfo :=
  let len := added_length this runinfo in
  if bool_decide (fRunNumber runinfo ≠ fRunNumber this)
  then Some (mkTGRSIRunInfo 0 (-1) 0 0 len)
  else if bool_decide (in_Int_t (fSubRunNumber this + 1))
  then if bool_decide (fSubRunNumber runinfo = fSubRunNumber this + 1)
       then Some (mkTGRSIRunInfo (fRunNumber this) (fSubRunNumber runinfo)
                    (fRunStart this) (fRunStop runinfo) len)
       else Some (mkTGRSIRunInfo (fRunNumber this) (-1) 0 0 len)
  else None.

(** Adding several run infos, first to last. *)
Fixpoint AddAll (l : list TGRSIRunInfo) (this : TGRSIRunInfo) : option TGRSIRunInfo :=
  match l with
  | [] => Some this
  | runinfo :: rest =>
      match Add runinfo this with
      | Some this' => AddAll rest this'
      | None => None
      end
  end.

(** The static version string and what [printf] has written. *)
Record Statics : Type := mkStatics {
  fGRSIVersion : string;
  stdout : list string
}.

Definition newline : string :=
  String (Ascii.Ascii false true false true false false false false) EmptyString.

Section Version.

(** The colour macros of Globals.h, which is not at hand. *)
Variables (ALERTTEXT RESET_COLOR : string).

Definition SetGRSIVersion (ver : string) (s : Statics) : Statics :=
  if bool_decide (String.length (fGRSIVersion s) ≠ 0%nat)
  then mkStatics (fGRSIVersion s)
         (stdout s ++ [ALERTTEXT +:+ "WARNING; VERSION ALREADY SET TO "
                       +:+ fGRSIVersion s +:+ "!!" +:+ RESET_COLOR +:+ newline])
  else mkStatics ver (stdout s).

End Version.

Definition ClearGRSIVersion (s : Statics) : Statics := mkStatics "" (stdout s).

Definition GetGRSIVersion (s : Statics) : string := fGRSIVersion s.

(** What the sub-run bookkeeping of [Add] maintains: the sub-run number is
    at least -1, and -1 goes with start and stop both 0. *)
Definition consistent (r : TGRSIRunInfo) : Prop :=
  -1 <= fSubRunNumber r
  ∧ (fSubRunNumber r = -1 → fRunStart r = 0%float ∧ fRunStop r = 0%float).

(** Sub-runs 0, 1 and 2 of run 29038, each 600 s long. *)
Definition sub0 : TGRSIRunInfo := mkTGRSIRunInfo 29038 0 1000 1600 600.
Definition sub1 : TGRSIRunInfo := mkTGRSIRunInfo 29038 1 1600 2200 600.
Definition sub2 : TGRSIRunInfo := mkTGRSIRunInfo 29038 2 2200 2800 600.
Definition other_run : TGRSIRunInfo := mkTGRSIRunInfo 29039 0 5000 5600 600.

End GRSIRunInfo.

(** ** Running the monad *)

Lemma run_bind {A B : Type} (c : M A) (k : A → M B) (w : World) :
  (c ≫= k) w =
  match c w with
  | Ok a w' => k a w'
  | Throw e w' => Throw e w'
  | Fault f => Fault f
  | Timeout => Timeout
  end.
Proof. reflexivity. Qed.

Lemma run_bind_Ok {A B : Type} (c : M A) (k : A → M B) (w w' : World) (a : A) :
  c w = Ok a w' → (c ≫= k) w = k a w'.
Proof. intros E. rewrite run_bind, E. reflexivity. Qed.

Lemma run_this {A : Type} (member : TSinglePeak → A) (w : World) :
  this member w = Ok (member (self w)) w.
Proof. reflexivity. Qed.

Lemma run_load_Some (a : positive) (f : TF1) (w : World) :
  heap w !! a = Some f → load (Some a) w = Ok f w.
Proof. intros E. unfold load. rewrite E. reflexivity. Qed.

Lemma run_total (a : positive) (f : TF1) (w : World) :
  fTotalFunction (self w) = Some a → heap w !! a = Some f → total w = Ok f w.
Proof.
  intros Ep Ef. unfold total.
  rewrite (run_bind_Ok _ _ _ _ _ (run_this _ w)), Ep.
  apply run_load_Some, Ef.
Qed.

Lemma run_global (a : positive) (f : TF1) (w : World) :
  fGlobalBackground (self w) = Some a → heap w !! a = Some f → global w = Ok f w.
Proof.
  intros Ep Ef. unfold global.
  rewrite (run_bind_Ok _ _ _ _ _ (run_this _ w)), Ep.
  apply run_load_Some, Ef.
Qed.

Lemma run_update (a : positive) (f : TF1) (g : TF1 → TF1) (w : World) :
  heap w !! a = Some f →
  update (Some a) g w = Ok tt (set_heap (<[a := g f]> (heap w)) w).
Proof.
  intros E. unfold update.
  rewrite (run_bind_Ok _ _ _ _ _ (run_load_Some _ _ _ E)). reflexivity.
Qed.

(** ** The parameter classifier *)

Lemma size_type_of_valid (par n : Z) :
  0 <= par < n → n <= vector_max_size → size_type_of_Int_t par = par.
Proof.
  unfold size_type_of_Int_t, vector_max_size. intros Hp Hn.
  apply Z.mod_small. lia.
Qed.

Lemma size_type_of_invalid (par n : Z) :
  in_Int_t par → n <= vector_max_size → ¬ (0 <= par < n) →
  ¬ (size_type_of_Int_t par < n).
Proof.
  unfold in_Int_t, Int_t_min, Int_t_max, size_type_of_Int_t, vector_max_size.
  intros Hr Hn Hout Hlt.
  destruct (Z_lt_le_dec par 0) as [Hneg | Hpos].
  - assert (E : par mod 2 ^ 64 = par + 2 ^ 64).
    { rewrite <- (Z_mod_plus_full par 1 (2 ^ 64)).
      rewrite Z.mod_small; lia. }
    lia.
  - rewrite Z.mod_small in Hlt; lia.
Qed.

Lemma IsBackgroundParameter_cases (par : Int_t) (w : World) :
  let v := fListOfBGPars (self w) in
  let n := size_type_of_Int_t par in
  IsBackgroundParameter par w =
  if bool_decide (n < Z.of_nat (length v))
  then match v !! Z.to_nat n with
       | Some b => Ok b w
       | None => Ok true (warned par w)
       end
  else Ok true (warned par w).
Proof.
  cbv zeta. unfold IsBackgroundParameter, try_catch.
  rewrite (run_bind_Ok _ _ _ _ _ (run_this _ w)).
  unfold vector_at. case_bool_decide; [|reflexivity].
  destruct (_ !! _); reflexivity.
Qed.

Lemma IsBackgroundParameter_valid (par : Int_t) (w : World) (b : bool) :
  Z.of_nat (length (fListOfBGPars (self w))) <= vector_max_size →
  0 <= par →
  fListOfBGPars (self w) !! Z.to_nat par = Some b →
  IsBackgroundParameter par w = Ok b w.
Proof.
  intros Hsz Hpos Hb. rewrite IsBackgroundParameter_cases. cbv zeta.
  apply lookup_lt_Some in Hb as Hlt.
  rewrite (size_type_of_valid par (Z.of_nat (length (fListOfBGPars (self w))))) by lia.
  rewrite bool_decide_true by lia. rewrite Hb. reflexivity.
Qed.

Lemma IsBackgroundParameter_invalid (par : Int_t) (w : World) :
  in_Int_t par →
  Z.of_nat (length (fListOfBGPars (self w))) <= vector_max_size →
  ¬ (0 <= par < Z.of_nat (length (fListOfBGPars (self w)))) →
  IsBackgroundParameter par w = Ok true (warned par w).
Proof.
  intros Hr Hsz Hout. rewrite IsBackgroundParameter_cases. cbv zeta.
  rewrite bool_decide_false; [reflexivity|].
  apply size_type_of_invalid; assumption.
Qed.

Lemma IsPeakParameter_run (par : Int_t) (w w' : World) (b : bool) :
  IsBackgroundParameter par w = Ok b w' →
  IsPeakParameter par w = Ok (negb b) w'.
Proof. intros E. unfold IsPeakParameter. rewrite (run_bind_Ok _ _ _ _ _ E). reflexivity. Qed.

(** The table of the demo peak: parameter 0 belongs to the peak, parameters
    1 and 2 to the background; nothing is written to the error stream. *)
Example classify_demo :
  IsBackgroundParameter 0 Demo.fitted = Ok false Demo.fitted
  ∧ IsBackgroundParameter 1 Demo.fitted = Ok true Demo.fitted
  ∧ IsPeakParameter 0 Demo.fitted = Ok true Demo.fitted
  ∧ IsPeakParameter 2 Demo.fitted = Ok false Demo.fitted.
Proof. split_and!; vm_compute; reflexivity. Qed.

Lemma Ok_not_raises {A : Type} (c : M A) (w w' : World) (a : A) :
  c w = Ok a w' → ¬ raises c w.
Proof. intros E (e & w'' & E'). congruence. Qed.

(** C1, as the code has it: for an index outside [0, N), [N] the length of the
    classification table, [IsBackgroundParameter] writes the line
    "Parameter not in list: <index>" to the error stream and returns [true],
    and [IsPeakParameter] returns [false] after the same line; no error
    leaves either call. *)
Theorem classify_out_of_range (par : Int_t) (w : World) :
  in_Int_t par →
  Z.of_nat (length (fListOfBGPars (self w))) <= vector_max_size →
  ¬ (0 <= par < Z.of_nat (length (fListOfBGPars (self w)))) →
  IsBackgroundParameter par w = Ok true (warned par w)
  ∧ IsPeakParameter par w = Ok false (warned par w)
  ∧ ¬ raises (IsBackgroundParameter par) w
  ∧ ¬ raises (IsPeakParameter par) w.
Proof.
  intros Hr Hsz Hout.
  pose proof (IsBackgroundParameter_invalid par w Hr Hsz Hout) as Eb.
  pose proof (IsPeakParameter_run par w _ _ Eb) as Ep.
  split; [exact Eb|]. split; [exact Ep|].
  split; eapply Ok_not_raises; eassumption.
Qed.

Lemma classify_out_of_range_witness :
  IsBackgroundParameter (-1) Demo.fitted = Ok true (warned (-1) Demo.fitted)
  ∧ IsPeakParameter (-1) Demo.fitted = Ok false (warned (-1) Demo.fitted)
  ∧ ¬ raises (IsBackgroundParameter (-1)) Demo.fitted
  ∧ ¬ raises (IsPeakParameter (-1)) Demo.fitted.
Proof.
  apply (classify_out_of_range (-1) Demo.fitted).
  - unfold in_Int_t, Int_t_min, Int_t_max. lia.
  - unfold vector_max_size. simpl. lia.
  - simpl. lia.
Defined.

(** C1 fails as stated: in a model of three parameters the classifier, asked
    about the indices -1 and 3, answers "background" and raises nothing. *)
Lemma classify_raises_nothing :
  IsBackgroundParameter (-1) Demo.fitted = Ok true (warned (-1) Demo.fitted)
  ∧ IsBackgroundParameter 3 Demo.fitted = Ok true (warned 3 Demo.fitted)
  ∧ ¬ raises (IsBackgroundParameter (-1)) Demo.fitted
  ∧ ¬ raises (IsBackgroundParameter 3) Demo.fitted.
Proof.
  assert (E1 : IsBackgroundParameter (-1) Demo.fitted = Ok true (warned (-1) Demo.fitted))
    by (vm_compute; reflexivity).
  assert (E2 : IsBackgroundParameter 3 Demo.fitted = Ok true (warned 3 Demo.fitted))
    by (vm_compute; reflexivity).
  split; [exact E1|]. split; [exact E2|].
  split; eapply Ok_not_raises; eassumption.
Qed.

(** C8, as the code has it: for every index, inside [0, N) or not,
    [IsPeakParameter] returns the negation of what [IsBackgroundParameter]
    returns, in the same final world, and neither call raises an error. *)
Theorem IsPeakParameter_negates (par : Int_t) (w : World) :
  ∃ (b : bool) (w' : World),
    IsBackgroundParameter par w = Ok b w'
    ∧ IsPeakParameter par w = Ok (negb b) w'.
Proof.
  assert (∃ b w', IsBackgroundParameter par w = Ok b w') as (b & w' & E).
  { rewrite IsBackgroundParameter_cases. cbv zeta.
    case_bool_decide; [destruct (_ !! _)|]; eauto. }
  exists b, w'. split; [exact E|]. apply IsPeakParameter_run, E.
Qed.

(** C8 fails as stated: at the invalid index 3 of a three-parameter model
    the two operations do not fail with a common error; [IsPeakParameter]
    returns [false]. *)
Lemma IsPeakParameter_invalid_no_error :
  IsPeakParameter 3 Demo.fitted = Ok false (warned 3 Demo.fitted)
  ∧ ¬ (∃ e w1 w2, IsPeakParameter 3 Demo.fitted = Throw e w1
                  ∧ IsBackgroundParameter 3 Demo.fitted = Throw e w2).
Proof.
  assert (E : IsPeakParameter 3 Demo.fitted = Ok false (warned 3 Demo.fitted))
    by (vm_compute; reflexivity).
  split; [exact E|]. intros (e & w1 & w2 & E1 & _). congruence.
Qed.

(** ** The total function *)

(** C2: for every coordinate array and every parameter array the total
    function is the floating-point sum of the peak function and the
    background function, both applied to the whole parameter array. *)
Theorem TotalFunction_decomposition `{PeakShape} (dim par : list Double_t) :
  TotalFunction dim par = (PeakFunction dim par + BackgroundFunction dim par)%float.
Proof. reflexivity. Qed.

(** The scenario with [A = 10], [b0 = 2], [b1 = 0.5] at [x = 3]. *)
Example TotalFunction_scenario :
  @TotalFunction Demo.shape [3]%float [10; 2; 0.5]%float
  = (@PeakFunction Demo.shape [3] [10] + (2 + 0.5 * 3))%float
  ∧ @TotalFunction Demo.shape [3]%float [10; 2; 0.5]%float = 13.5%float.
Proof. split; vm_compute; reflexivity. Qed.

(** A function object built on [TotalFunction] evaluates to that sum. *)
Lemma EvalPar_total `{PeakShape} (fuel : nat) (f : TF1) (dim par : list Double_t) (w : World) :
  fFunctor f = MemberFn M_TotalFunction →
  EvalPar (S fuel) f dim par w
  = Ok (PeakFunction dim par + BackgroundFunction dim par)%float w.
Proof. intros E. simpl. rewrite E. reflexivity. Qed.

(** ** Parameter count *)

(** C6: [GetNParameters] returns 0 when the total function is null and the
    parameter count of the total function otherwise; it leaves the world as
    it found it, so a repeated call returns the same number. *)
Theorem GetNParameters_spec (w : World) :
  (fTotalFunction (self w) = None → GetNParameters w = Ok 0 w)
  ∧ (∀ a f, fTotalFunction (self w) = Some a → heap w !! a = Some f →
            GetNParameters w = Ok (GetNpar f) w)
  ∧ (∀ n w', GetNParameters w = Ok n w' → w' = w ∧ GetNParameters w' = Ok n w').
Proof.
  unfold GetNParameters.
  rewrite (run_bind_Ok _ _ _ _ _ (run_this _ w)).
  split; [|split].
  - intros ->. reflexivity.
  - intros a f -> Ef.
    rewrite (run_bind_Ok _ _ _ _ _ (run_load_Some _ _ _ Ef)). reflexivity.
  - intros n w'. 
    assert (Hst : ∀ n w', 
      match fTotalFunction (self w) return M Int_t with
      | Some _ => f ← load (fTotalFunction (self w)); mret (GetNpar f)
      | None => mret 0
      end w = Ok n w' → w' = w).
    { clear. intros n w'. destruct (fTotalFunction (self w)) as [a|]; simpl.
      - rewrite run_bind. unfold load. destruct (heap w !! a); [|discriminate].
        intros [= _ <-]. reflexivity.
      - intros [= _ <-]. reflexivity. }
    intros E. pose proof (Hst _ _ E) as ->.
    split; [reflexivity|].
    rewrite (run_bind_Ok _ _ _ _ _ (run_this _ w)). exact E.
Qed.

Lemma GetNParameters_spec_witness :
  GetNParameters Demo.blank = Ok 0 Demo.blank
  ∧ GetNParameters Demo.fitted = Ok 3 Demo.fitted
  ∧ (Demo.fitted = Demo.fitted ∧ GetNParameters Demo.fitted = Ok 3 Demo.fitted).
Proof.
  split; [|split].
  - apply (proj1 (GetNParameters_spec Demo.blank)). reflexivity.
  - apply (proj1 (proj2 (GetNParameters_spec Demo.fitted)) 1%positive Demo.total_fn);
      reflexivity.
  - apply (proj2 (proj2 (GetNParameters_spec Demo.fitted)) 3 Demo.fitted).
    vm_compute. reflexivity.
Defined.

(** ** The cached background function *)

Lemma run_new (f : TF1) (w : World) :
  new f w = Ok (Some (fresh (dom (heap w))))
               (set_heap (<[fresh (dom (heap w)) := f]> (heap w)) w).
Proof. reflexivity. Qed.

Lemma fresh_not_live (h : gmap positive TF1) : h !! fresh (dom h) = None.
Proof. apply not_elem_of_dom, is_fresh. Qed.

Lemma GetBackgroundFunction_cached (w : World) (p : positive) :
  fBackgroundFunction (self w) = Some p →
  GetBackgroundFunction w = Ok (Some p) w.
Proof.
  intros E. unfold GetBackgroundFunction.
  rewrite (run_bind_Ok _ _ _ _ _ (run_this _ w)), E.
  rewrite run_bind. simpl. rewrite run_this, E. reflexivity.
Qed.

Lemma GetBackgroundFunction_first (w : World) (a : positive) (tf : TF1) :
  fBackgroundFunction (self w) = None →
  fTotalFunction (self w) = Some a →
  heap w !! a = Some tf →
  let p := fresh (dom (heap w)) in
  GetBackgroundFunction w
  = Ok (Some p)
       (set_heap (<[p := peak_bg (GetNpar tf) w]> (heap w))
          (set_self (mkTSinglePeak (fTotalFunction (self w)) (Some p)
                       (fGlobalBackground (self w)) (fListOfBGPars (self w))) w)).
Proof.
  intros Eb Ea Ef p. unfold GetBackgroundFunction.
  rewrite (run_bind_Ok _ _ _ _ _ (run_this _ w)), Eb.
  rewrite run_bind.
  rewrite (run_bind_Ok _ _ _ _ _ (run_total _ _ _ Ea Ef)).
  unfold TF1_ctor. rewrite run_bind.
  rewrite (run_bind_Ok _ _ _ _ _ (run_new _ _)).
  fold p. rewrite run_bind. unfold set_fBackgroundFunction.
  rewrite run_bind, run_this. cbn [self set_self set_heap fBackgroundFunction].
  erewrite run_update; [|cbn [heap set_heap]; apply lookup_insert_eq].
  rewrite run_this. cbn [self set_self set_heap heap fBackgroundFunction].
  rewrite insert_insert_eq. reflexivity.
Qed.

(** C4: when no background function is cached and the total function is
    live, [GetBackgroundFunction] builds a new function object: it sits at an
    address that held nothing, has as many parameters as the total function,
    the stored range [0, 1], line style 9 and [BackgroundFunction] as its
    body, and becomes the cached pointer.  The total function, its pointer and
    every other object are as before.  From then on, and whenever a pointer is
    cached, the call returns the cached pointer and changes nothing. *)
Theorem GetBackgroundFunction_caches (w : World) (a : positive) (tf : TF1) :
  fBackgroundFunction (self w) = None →
  fTotalFunction (self w) = Some a →
  heap w !! a = Some tf →
  ∃ (p : positive) (bg : TF1) (w1 : World),
    GetBackgroundFunction w = Ok (Some p) w1
    ∧ heap w !! p = None
    ∧ heap w1 !! p = Some bg
    ∧ fBackgroundFunction (self w1) = Some p
    ∧ GetNpar bg = GetNpar tf
    ∧ GetRange bg = (0%float, 1%float)
    ∧ GetLineStyle bg = 9
    ∧ fFunctor bg = MemberFn M_BackgroundFunction
    ∧ fTotalFunction (self w1) = Some a
    ∧ heap w1 !! a = Some tf
    ∧ (∀ q, q ≠ p → heap w1 !! q = heap w !! q)
    ∧ fGlobalBackground (self w1) = fGlobalBackground (self w)
    ∧ fListOfBGPars (self w1) = fListOfBGPars (self w)
    ∧ GetBackgroundFunction w1 = Ok (Some p) w1
    ∧ (∀ w2, fBackgroundFunction (self w2) = Some p →
             GetBackgroundFunction w2 = Ok (Some p) w2).
Proof.
  intros Eb Ea Ef.
  pose proof (GetBackgroundFunction_first w a tf Eb Ea Ef) as Erun.
  cbv zeta in Erun.
  pose proof (fresh_not_live (heap w)) as Hfresh.
  set (p := fresh (dom (heap w))) in *.
  assert (Hne : a ≠ p) by congruence.
  exists p. exists (peak_bg (GetNpar tf) w). eexists.
  split; [exact Erun|].
  cbn [self heap set_self set_heap fBackgroundFunction fTotalFunction
       fGlobalBackground fListOfBGPars].
  split_and!; try reflexivity.
  - exact Hfresh.
  - apply lookup_insert_eq.
  - unfold GetNpar, peak_bg. cbn [fParams]. rewrite length_replicate. lia.
  - exact Ea.
  - rewrite lookup_insert_ne by congruence. exact Ef.
  - intros q Hq. apply lookup_insert_ne. congruence.
  - intros w2. apply (GetBackgroundFunction_cached w2 p).
Qed.

Lemma GetBackgroundFunction_caches_witness :
  ∃ (p : positive) (bg : TF1) (w1 : World),
    GetBackgroundFunction Demo.fitted = Ok (Some p) w1
    ∧ heap Demo.fitted !! p = None
    ∧ heap w1 !! p = Some bg
    ∧ fBackgroundFunction (self w1) = Some p
    ∧ GetNpar bg = GetNpar Demo.total_fn
    ∧ GetRange bg = (0%float, 1%float)
    ∧ GetLineStyle bg = 9
    ∧ fFunctor bg = MemberFn M_BackgroundFunction
    ∧ fTotalFunction (self w1) = Some 1%positive
    ∧ heap w1 !! 1%positive = Some Demo.total_fn
    ∧ (∀ q, q ≠ p → heap w1 !! q = heap Demo.fitted !! q)
    ∧ fGlobalBackground (self w1) = fGlobalBackground (self Demo.fitted)
    ∧ fListOfBGPars (self w1) = fListOfBGPars (self Demo.fitted)
    ∧ GetBackgroundFunction w1 = Ok (Some p) w1
    ∧ (∀ w2, fBackgroundFunction (self w2) = Some p →
             GetBackgroundFunction w2 = Ok (Some p) w2).
Proof.
  apply (GetBackgroundFunction_caches Demo.fitted 1%positive Demo.total_fn);
    reflexivity.
Defined.

(** On the demo peak the first call puts the background function at
    address 2, and the second call finds it there. *)
Example GetBackgroundFunction_twice :
  GetBackgroundFunction Demo.fitted = Ok (Some 2%positive) Demo.with_background
  ∧ GetBackgroundFunction Demo.with_background
    = Ok (Some 2%positive) Demo.with_background.
Proof. split; vm_compute; reflexivity. Qed.

(** ** Copying the fitted parameters into the background function *)

Lemma UpdateBackgroundParameters_run (w : World) (a b : positive) (tf bg : TF1) :
  fTotalFunction (self w) = Some a →
  heap w !! a = Some tf →
  fBackgroundFunction (self w) = Some b →
  heap w !! b = Some bg →
  GetNpar bg <= GetNpar tf →
  UpdateBackgroundParameters w
  = Ok tt (set_heap
             (<[b := with_params (take (length (fParams bg)) (fParams tf)) bg]> (heap w))
             w).
Proof.
  intros Ea Etf Eb Ebg Hn. unfold UpdateBackgroundParameters.
  rewrite (run_bind_Ok _ _ _ _ _ (run_total _ _ _ Ea Etf)).
  rewrite (run_bind_Ok _ _ _ _ _ (run_this _ w)), Eb.
  rewrite (run_bind_Ok _ _ _ _ _ (run_load_Some _ _ _ Ebg)).
  unfold SetParameters, GetParameters, GetNpar in *.
  rewrite bool_decide_true by lia.
  rewrite (run_update _ _ _ _ Ebg). reflexivity.
Qed.

Lemma UpdateBackgroundParameters_null (w : World) :
  fBackgroundFunction (self w) = None →
  ∃ f, UpdateBackgroundParameters w = Fault f.
Proof.
  intros Eb. unfold UpdateBackgroundParameters. rewrite run_bind.
  unfold total. rewrite (run_bind_Ok _ _ _ _ _ (run_this _ w)).
  unfold load at 1.
  destruct (fTotalFunction (self w)) as [a|]; [|eauto].
  destruct (heap w !! a) as [tf|]; [|eauto].
  rewrite (run_bind_Ok _ _ _ _ _ (run_this _ w)), Eb. eauto.
Qed.

Lemma GetParameter_lookup (f : TF1) (i : Z) :
  0 <= i < GetNpar f → GetParameter f i = default 0%float (fParams f !! Z.to_nat i).
Proof. intros Hi. unfold GetParameter. rewrite bool_decide_true by exact Hi. reflexivity. Qed.

(** C5, as the code has it: with the total function live and a background
    function constructed that has no more parameters than the total function,
    [UpdateBackgroundParameters] copies the total function's values into the
    background function, whose values then equal the total function's at
    every index of the background function, the total function keeping its
    own.  With no background function constructed the call follows the null
    pointer: it ends in undefined behaviour, neither raising an error nor
    returning. *)
Theorem UpdateBackgroundParameters_copies (w : World) :
  (∀ (a b : positive) (tf bg : TF1),
     fTotalFunction (self w) = Some a →
     heap w !! a = Some tf →
     fBackgroundFunction (self w) = Some b →
     heap w !! b = Some bg →
     GetNpar bg <= GetNpar tf →
     ∃ (w' : World) (tf' bg' : TF1),
       UpdateBackgroundParameters w = Ok tt w'
       ∧ self w' = self w
       ∧ heap w' !! a = Some tf'
       ∧ heap w' !! b = Some bg'
       ∧ fParams tf' = fParams tf
       ∧ GetNpar bg' = GetNpar bg
       ∧ (∀ i, 0 <= i < GetNpar bg' → GetParameter bg' i = GetParameter tf' i)
       ∧ (GetNpar bg = GetNpar tf → fParams bg' = fParams tf')
       ∧ (∀ q, q ≠ b → heap w' !! q = heap w !! q))
  ∧ (fBackgroundFunction (self w) = None →
     (∃ f, UpdateBackgroundParameters w = Fault f)
     ∧ ¬ raises UpdateBackgroundParameters w
     ∧ ∀ w', UpdateBackgroundParameters w ≠ Ok tt w').
Proof.
  split.
  - intros a b tf bg Ea Etf Eb Ebg Hn.
    pose proof (UpdateBackgroundParameters_run w a b tf bg Ea Etf Eb Ebg Hn) as Erun.
    set (bg' := with_params (take (length (fParams bg)) (fParams tf)) bg) in *.
    assert (Hlen : length (fParams bg') = length (fParams bg)).
    { unfold bg'. cbn [fParams with_params]. rewrite length_take.
      unfold GetNpar in Hn. lia. }
    assert (Hpar : ∀ i, 0 <= i < GetNpar bg' →
                        GetParameter bg' i = GetParameter tf i).
    { intros i Hi. unfold GetNpar in Hi, Hn.
      rewrite !GetParameter_lookup by (unfold GetNpar; lia).
      unfold bg'. cbn [fParams with_params].
      rewrite lookup_take_lt by lia. reflexivity. }
    assert (Hsame : a = b → fParams bg' = fParams tf).
    { intros ->. assert (bg = tf) as -> by congruence.
      unfold bg'. cbn [fParams with_params]. apply firstn_all. }
    destruct (decide (a = b)) as [Eab | Nab].
    + exists (set_heap (<[b := bg']> (heap w)) w), bg', bg'.
      cbn [self heap set_heap]. subst a.
      split_and!; try reflexivity.
      * exact Erun.
      * apply lookup_insert_eq.
      * apply lookup_insert_eq.
      * apply Hsame. reflexivity.
      * unfold GetNpar. lia.
      * intros q Hq. apply lookup_insert_ne. congruence.
    + exists (set_heap (<[b := bg']> (heap w)) w), tf, bg'.
      cbn [self heap set_heap].
      split_and!; try reflexivity.
      * exact Erun.
      * rewrite lookup_insert_ne by congruence. exact Etf.
      * apply lookup_insert_eq.
      * unfold GetNpar. lia.
      * exact Hpar.
      * intros Hnn. unfold bg'. cbn [fParams with_params].
        unfold GetNpar in Hnn.
        replace (length (fParams bg)) with (length (fParams tf)) by lia.
        apply firstn_all.
      * intros q Hq. apply lookup_insert_ne. congruence.
  - intros Eb. destruct (UpdateBackgroundParameters_null w Eb) as [f Ef].
    split; [eauto|]. split.
    + intros (e & w' & E). congruence.
    + intros w' E. congruence.
Qed.

Lemma UpdateBackgroundParameters_copies_witness :
  (∃ (w' : World) (tf' bg' : TF1),
     UpdateBackgroundParameters Demo.with_background = Ok tt w'
     ∧ self w' = self Demo.with_background
     ∧ heap w' !! 1%positive = Some tf'
     ∧ heap w' !! 2%positive = Some bg'
     ∧ fParams tf' = fParams Demo.total_fn
     ∧ GetNpar bg' = GetNpar Demo.background_fn
     ∧ (∀ i, 0 <= i < GetNpar bg' → GetParameter bg' i = GetParameter tf' i)
     ∧ (GetNpar Demo.background_fn = GetNpar Demo.total_fn → fParams bg' = fParams tf')
     ∧ (∀ q, q ≠ 2%positive → heap w' !! q = heap Demo.with_background !! q))
  ∧ ((∃ f, UpdateBackgroundParameters Demo.fitted = Fault f)
     ∧ ¬ raises UpdateBackgroundParameters Demo.fitted
     ∧ ∀ w', UpdateBackgroundParameters Demo.fitted ≠ Ok tt w').
Proof.
  split.
  - apply (proj1 (UpdateBackgroundParameters_copies Demo.with_background)
             1%positive 2%positive Demo.total_fn Demo.background_fn);
      first [reflexivity | vm_compute; discriminate].
  - apply (proj2 (UpdateBackgroundParameters_copies Demo.fitted)). reflexivity.
Defined.

(** After the copy the demo background function holds 10, 2 and 0.5. *)
Example UpdateBackgroundParameters_demo :
  ∃ w', UpdateBackgroundParameters Demo.with_background = Ok tt w'
        ∧ fParams <$> heap w' !! 2%positive = Some [10; 2; 0.5]%float.
Proof. eexists. split; vm_compute; reflexivity. Qed.

(** X4: the background function that [GetBackgroundFunction] builds always
    meets the precondition on the parameter counts: built and then updated, it
    holds exactly the total function's values, and the total function is
    untouched. *)
Lemma GetBackgroundFunction_then_update (w : World) (a : positive) (tf : TF1) :
  fBackgroundFunction (self w) = None →
  fTotalFunction (self w) = Some a →
  heap w !! a = Some tf →
  ∃ (p : positive) (w1 w2 : World) (bg : TF1),
    GetBackgroundFunction w = Ok (Some p) w1
    ∧ UpdateBackgroundParameters w1 = Ok tt w2
    ∧ heap w2 !! p = Some bg
    ∧ fParams bg = fParams tf
    ∧ heap w2 !! a = Some tf.
Proof.
  intros Eb Ea Etf.
  pose proof (GetBackgroundFunction_first w a tf Eb Ea Etf) as E1. cbv zeta in E1.
  pose proof (fresh_not_live (heap w)) as Hfresh.
  set (p := fresh (dom (heap w))) in *.
  assert (Hne : p ≠ a) by congruence.
  set (w1 := set_heap _ _) in E1.
  assert (Etf1 : heap w1 !! a = Some tf).
  { unfold w1. cbn [heap set_heap]. rewrite lookup_insert_ne by exact Hne. exact Etf. }
  assert (Ebg1 : heap w1 !! p = Some (peak_bg (GetNpar tf) w)).
  { unfold w1. cbn [heap set_heap]. apply lookup_insert_eq. }
  assert (Hn : GetNpar (peak_bg (GetNpar tf) w) = GetNpar tf).
  { unfold GetNpar, peak_bg. cbn [fParams]. rewrite length_replicate. lia. }
  pose proof (UpdateBackgroundParameters_run w1 a p tf _ Ea Etf1 eq_refl Ebg1
                ltac:(rewrite Hn; reflexivity)) as E2.
  eexists p, w1, _, _. split; [exact E1|]. split; [exact E2|].
  cbn [heap set_heap]. split; [apply lookup_insert_eq|]. split.
  - cbn [fParams with_params].
    replace (length (fParams (peak_bg (GetNpar tf) w)))
      with (length (fParams tf)).
    + apply firstn_all.
    + unfold peak_bg, GetNpar. cbn [fParams]. rewrite length_replicate. lia.
  - rewrite lookup_insert_ne by exact Hne. exact Etf1.
Qed.

(** C5 fails as stated: called on the fitted demo peak, whose background
    function has not been constructed, [UpdateBackgroundParameters] raises no
    error; it dereferences the null pointer. *)
Lemma UpdateBackgroundParameters_absent_no_error :
  UpdateBackgroundParameters Demo.fitted = Fault NullDeref
  ∧ ¬ raises UpdateBackgroundParameters Demo.fitted.
Proof.
  assert (E : UpdateBackgroundParameters Demo.fitted = Fault NullDeref)
    by (vm_compute; reflexivity).
  split; [exact E|]. intros (e & w' & E'). congruence.
Qed.

(** ** The peak on the global background *)

Lemma reads_only_take (n : nat) (f : list Double_t → list Double_t → Double_t)
    (dim par : list Double_t) :
  reads_only n f → f dim (take n par) = f dim par.
Proof. intros Hf. apply Hf. apply take_idemp. Qed.

Lemma PeakOnGlobalFunction_detached `{PeakShape} (fuel : nat)
    (dim par : list Double_t) (w : World) :
  fGlobalBackground (self w) = None →
  PeakOnGlobalFunction fuel dim par w = Ok 0%float w.
Proof.
  intros Eg. unfold PeakOnGlobalFunction, PeakOnGlobalFunction_body.
  rewrite (run_bind_Ok _ _ _ _ _ (run_this _ w)), Eg. reflexivity.
Qed.

Lemma EvalPar_external `{PeakShape} (fuel : nat) (f : TF1)
    (h : list Double_t → list Double_t → Double_t) (dim par : list Double_t) (w : World) :
  fFunctor f = ExternalFn h →
  EvalPar (S fuel) f dim par w = Ok (h dim par) w.
Proof. intros E. simpl. rewrite E. reflexivity. Qed.

Lemma PeakOnGlobalFunction_run `{PeakShape} (fuel : nat) (dim par : list Double_t)
    (w : World) (g a : positive) (gb tf : TF1) (v : Double_t) :
  fGlobalBackground (self w) = Some g →
  heap w !! g = Some gb →
  fTotalFunction (self w) = Some a →
  heap w !! a = Some tf →
  EvalPar fuel gb dim (drop (Z.to_nat (GetNpar tf)) par) w = Ok v w →
  PeakOnGlobalFunction fuel dim par w = Ok (PeakFunction dim par + v)%float w.
Proof.
  intros Eg Egb Ea Etf Ev. unfold PeakOnGlobalFunction, PeakOnGlobalFunction_body.
  rewrite (run_bind_Ok _ _ _ _ _ (run_this _ w)), Eg.
  rewrite (run_bind_Ok _ _ _ _ _ (run_total _ _ _ Ea Etf)).
  rewrite (run_bind_Ok _ _ _ _ _ (run_load_Some _ _ _ Egb)).
  rewrite (run_bind_Ok _ _ _ _ _ Ev). reflexivity.
Qed.

(** C3: with no global background attached [PeakOnGlobalFunction] returns 0
    and changes nothing.  With a global background attached, a function
    supplied from outside, and the total function live, it returns the peak
    function of the parameter array plus the global background evaluated on
    the array from index [N] on, [N] the total function's parameter count;
    as the peak function reads only the first [N] parameters and the global
    background only its own [M], that is the peak function of the first [N]
    parameters plus the global background evaluated on the [M] after them. *)
Theorem PeakOnGlobalFunction_spec `{PeakShape} (fuel : nat)
    (dim par : list Double_t) (w : World) :
  (fGlobalBackground (self w) = None →
   PeakOnGlobalFunction fuel dim par w = Ok 0%float w)
  ∧ (∀ (g a : positive) (gb tf : TF1) (h : list Double_t → list Double_t → Double_t),
       fGlobalBackground (self w) = Some g →
       heap w !! g = Some gb →
       fFunctor gb = ExternalFn h →
       fTotalFunction (self w) = Some a →
       heap w !! a = Some tf →
       let n := Z.to_nat (GetNpar tf) in
       let m := Z.to_nat (GetNpar gb) in
       (∃ v, EvalPar (S fuel) gb dim (drop n par) w = Ok v w
             ∧ PeakOnGlobalFunction (S fuel) dim par w
               = Ok (PeakFunction dim par + v)%float w)
       ∧ (reads_only n PeakFunction → reads_only m h →
          ∃ v, EvalPar (S fuel) gb dim (take m (drop n par)) w = Ok v w
               ∧ PeakOnGlobalFunction (S fuel) dim par w
                 = Ok (PeakFunction dim (take n par) + v)%float w)).
Proof.
  split; [apply PeakOnGlobalFunction_detached|].
  intros g a gb tf h Eg Egb Eh Ea Etf n m.
  pose proof (EvalPar_external fuel gb h dim (drop n par) w Eh) as Ev.
  pose proof (PeakOnGlobalFunction_run (S fuel) dim par w g a gb tf _ Eg Egb Ea Etf Ev)
    as Erun.
  split; [eauto|].
  intros Hpeak Hglob. exists (h dim (take m (drop n par))).
  split; [apply EvalPar_external, Eh|].
  rewrite (reads_only_take n PeakFunction dim par Hpeak).
  rewrite (reads_only_take m h dim (drop n par) Hglob).
  exact Erun.
Qed.

Lemma Demo_peak_reads_only : reads_only 3 (@PeakFunction Demo.shape).
Proof.
  intros dim p q E. cbn [PeakFunction Demo.shape]. unfold Demo.p_of.
  assert (E0 : p !! 0%nat = q !! 0%nat).
  { rewrite <- (lookup_take_lt p 3 0), <- (lookup_take_lt q 3 0) by lia.
    rewrite E. reflexivity. }
  rewrite E0. reflexivity.
Qed.

Lemma Demo_line_reads_only : reads_only 2 Demo.line.
Proof.
  intros dim p q E. unfold Demo.line, Demo.p_of.
  assert (E0 : p !! 0%nat = q !! 0%nat).
  { rewrite <- (lookup_take_lt p 2 0), <- (lookup_take_lt q 2 0) by lia.
    rewrite E. reflexivity. }
  assert (E1 : p !! 1%nat = q !! 1%nat).
  { rewrite <- (lookup_take_lt p 2 1), <- (lookup_take_lt q 2 1) by lia.
    rewrite E. reflexivity. }
  rewrite E0, E1. reflexivity.
Qed.

Lemma PeakOnGlobalFunction_spec_witness :
  @PeakOnGlobalFunction Demo.shape 0 [3]%float [10; 2; 0.5; 1; 1]%float Demo.fitted
  = Ok 0%float Demo.fitted
  ∧ ∃ v, @EvalPar Demo.shape 1 Demo.global_fn [3]%float [1; 1]%float Demo.on_global
         = Ok v Demo.on_global
         ∧ @PeakOnGlobalFunction Demo.shape 1 [3]%float [10; 2; 0.5; 1; 1]%float
             Demo.on_global
           = Ok (@PeakFunction Demo.shape [3] [10; 2; 0.5] + v)%float Demo.on_global.
Proof.
  split.
  - apply (proj1 (@PeakOnGlobalFunction_spec Demo.shape 0 [3]%float
                    [10; 2; 0.5; 1; 1]%float Demo.fitted)).
    reflexivity.
  - apply (proj2 (proj2 (@PeakOnGlobalFunction_spec Demo.shape 0 [3]%float
                    [10; 2; 0.5; 1; 1]%float Demo.on_global)
                    2%positive 1%positive Demo.global_fn Demo.total_fn Demo.line
                    eq_refl eq_refl eq_refl eq_refl eq_refl)
             Demo_peak_reads_only Demo_line_reads_only).
Defined.

(** The scenario with the global background [(g0, g1) = (1, 1)]: the peak
    contributes 10 at [x = 3] and the line 4. *)
Example PeakOnGlobalFunction_scenario :
  @PeakOnGlobalFunction Demo.shape 1 [3]%float [10; 2; 0.5; 1; 1]%float Demo.on_global
  = Ok (@PeakFunction Demo.shape [3] [10] + Demo.line [3] [1; 1])%float Demo.on_global
  ∧ (@PeakFunction Demo.shape [3] [10] + Demo.line [3] [1; 1])%float = 14%float.
Proof. split; vm_compute; reflexivity. Qed.

(** ** Filling the parameters of a function object, one index at a time *)

Lemma with_params_id (f : TF1) : with_params (fParams f) f = f.
Proof. destruct f; reflexivity. Qed.

Lemma with_params_twice (l k : list Double_t) (f : TF1) :
  with_params l (with_params k f) = with_params l f.
Proof. reflexivity. Qed.

Lemma SetParameter_in_range (i : Z) (v : Double_t) (f : TF1) :
  0 <= i < GetNpar f →
  SetParameter i v f = with_params (<[Z.to_nat i := v]> (fParams f)) f.
Proof. intros Hi. unfold SetParameter. rewrite bool_decide_true by exact Hi. reflexivity. Qed.

(** Setting a parameter never changes how many there are: the bounds of the
    two loops of [Draw] stay what they were on entry. *)
Lemma GetNpar_SetParameter (i : Z) (v : Double_t) (f : TF1) :
  GetNpar (SetParameter i v f) = GetNpar f.
Proof.
  unfold SetParameter. case_bool_decide; [|reflexivity].
  unfold GetNpar. cbn [fParams with_params]. rewrite length_insert. reflexivity.
Qed.

(** A loop that sets the parameters [off], ..., [off + k - 1] in order
    overwrites exactly that block. *)
Lemma foldl_SetParameter (pos : Z → Z) (val : Z → Double_t) (off k : nat) (f : TF1) :
  (∀ i, 0 <= i < Z.of_nat k → pos i = i + Z.of_nat off) →
  (off + k ≤ length (fParams f))%nat →
  foldl (λ t i, SetParameter (pos i) (val i) t) f (seqZ 0 (Z.of_nat k))
  = with_params (take off (fParams f) ++ (val <$> seqZ 0 (Z.of_nat k))
                 ++ drop (off + k) (fParams f)) f.
Proof.
  intros Hpos. induction k as [|k IH]; intros Hlen.
  - simpl. rewrite Nat.add_0_r, take_drop. symmetry. apply with_params_id.
  - rewrite seqZ_S, foldl_snoc, fmap_app.
    rewrite IH by (try (intros; apply Hpos); lia).
    destruct (lookup_lt_is_Some_2 (fParams f) (off + k)) as [x Hx]; [lia|].
    rewrite (drop_S _ _ _ Hx).
    assert (Hlk : length (val <$> seqZ 0 (Z.of_nat k)) = k).
    { rewrite length_fmap, length_seqZ. lia. }
    rewrite SetParameter_in_range.
    2:{ unfold GetNpar. cbn [fParams with_params].
        rewrite !length_app, length_take, Hlk. cbn [length].
        rewrite length_drop, Hpos by lia. lia. }
    cbn [fParams with_params]. rewrite with_params_twice. f_equal.
    rewrite Hpos by lia.
    replace (Z.to_nat (0 + Z.of_nat k + Z.of_nat off)) with (off + k)%nat by lia.
    rewrite insert_app_r_alt by (rewrite length_take; lia).
    rewrite length_take.
    replace (off + k - off `min` length (fParams f))%nat with k by lia.
    rewrite insert_app_r_alt by lia. rewrite Hlk, Nat.sub_diag.
    cbn [fmap list_fmap]. rewrite <- app_assoc. cbn [app].
    replace (off + S k)%nat with (S (off + k)) by lia.
    reflexivity.
Qed.

Lemma GetParameter_all (f : TF1) :
  GetParameter f <$> seqZ 0 (GetNpar f) = fParams f.
Proof.
  apply list_eq. intros i. rewrite list_lookup_fmap.
  destruct (decide (i < length (fParams f))%nat) as [Hlt | Hge].
  - rewrite lookup_seqZ_lt by (unfold GetNpar; lia). cbn [fmap option_fmap option_map].
    rewrite GetParameter_lookup by (unfold GetNpar; lia).
    replace (Z.to_nat (0 + Z.of_nat i)) with i by lia.
    destruct (lookup_lt_is_Some_2 (fParams f) i Hlt) as [x Hx].
    rewrite Hx. reflexivity.
  - rewrite lookup_seqZ_ge by (unfold GetNpar; lia).
    rewrite lookup_ge_None_2 by lia. reflexivity.
Qed.

(** ** Running [Draw] *)

Lemma run_for_ (idx : list Z) (body : Z → M unit) (step : TF1 → Z → TF1)
    (w : World) (h : gmap positive TF1) (p : positive) :
  (∀ i t, i ∈ idx →
          body i (set_heap (<[p := t]> h) w) = Ok tt (set_heap (<[p := step t i]> h) w)) →
  ∀ t0, for_ idx body (set_heap (<[p := t0]> h) w)
        = Ok tt (set_heap (<[p := foldl step t0 idx]> h) w).
Proof.
  induction idx as [|i idx IH]; intros Hbody t0.
  - reflexivity.
  - cbn [for_ foldl].
    rewrite (run_bind_Ok _ _ _ _ _ (Hbody i t0 ltac:(left))).
    apply IH. intros j t Hj. apply Hbody. right. exact Hj.
Qed.

Lemma run_update_tmp (p : positive) (t : TF1) (g : TF1 → TF1)
    (h : gmap positive TF1) (w : World) :
  update (Some p) g (set_heap (<[p := t]> h) w)
  = Ok tt (set_heap (<[p := g t]> h) w).
Proof.
  rewrite (run_update p t g) by apply lookup_insert_eq.
  cbn [heap set_heap]. rewrite insert_insert_eq. reflexivity.
Qed.

Lemma run_Int_add (a b : Z) (w : World) :
  in_Int_t (a + b) → Int_add a b w = Ok (a + b) w.
Proof. intros Hr. unfold Int_add. rewrite bool_decide_true by exact Hr. reflexivity. Qed.

Lemma run_TF1_Draw (p : positive) (f : TF1) (opt : string) (w : World) :
  heap w !! p = Some f →
  TF1_Draw (Some p) opt w = Ok tt (set_gPad (gPad w ++ [(opt, f)]) w).
Proof.
  intros E. unfold TF1_Draw.
  rewrite (run_bind_Ok _ _ _ _ _ (run_load_Some _ _ _ E)). reflexivity.
Qed.

Lemma run_TObject_Delete (p : positive) (f : TF1) (w : World) :
  heap w !! p = Some f →
  TObject_Delete (Some p) w = Ok tt (set_heap (delete p (heap w)) w).
Proof.
  intros E. unfold TObject_Delete.
  rewrite (run_bind_Ok _ _ _ _ _ (run_load_Some _ _ _ E)). reflexivity.
Qed.

Lemma draw_peak_filled (tf gb : TF1) (c st : Z) :
  SetLineStyle (GetLineStyle tf)
    (SetLineColor (GetLineColor tf)
       (foldl (λ t i, SetParameter (i + GetNpar tf) (GetParameter gb i) t)
          (foldl (λ t i, SetParameter i (GetParameter tf i) t)
             (mkTF1 "draw_peak" (MemberFn M_PeakOnGlobalFunction) (fXmin gb) (fXmax gb)
                    (replicate (Z.to_nat (GetNpar tf + GetNpar gb)) 0%float) c st)
             (seqZ 0 (GetNpar tf)))
          (seqZ 0 (GetNpar gb))))
  = draw_peak tf gb.
Proof.
  pose proof (GetParameter_all tf) as Gtf. pose proof (GetParameter_all gb) as Ggb.
  unfold GetNpar in *.
  set (n := length (fParams tf)) in *. set (m := length (fParams gb)) in *.
  set (t0 := mkTF1 _ _ _ _ _ _ _).
  assert (Hps : fParams t0 = replicate (n + m) 0%float).
  { unfold t0. cbn [fParams]. f_equal. lia. }
  pose proof (foldl_SetParameter (λ i, i) (GetParameter tf) 0 n t0) as H1.
  cbv beta in H1.
  rewrite H1; clear H1.
  2:{ intros i _. lia. }
  2:{ rewrite Hps, length_replicate. lia. }
  rewrite Gtf, take_0, Hps. cbn [app].
  rewrite Nat.add_0_l, drop_replicate.
  replace (n + m - n)%nat with m by lia.
  set (t1 := with_params _ t0).
  pose proof (foldl_SetParameter (λ i, i + Z.of_nat n) (GetParameter gb) n m t1) as H2.
  cbv beta in H2.
  rewrite H2; clear H2.
  2:{ intros i _. reflexivity. }
  2:{ unfold t1. cbn [fParams with_params]. rewrite length_app, length_replicate. lia. }
  rewrite Ggb. unfold t1. cbn [fParams with_params].
  rewrite (take_app_length' _ _ n) by reflexivity.
  rewrite drop_ge by (rewrite length_app, length_replicate; lia).
  rewrite app_nil_r. reflexivity.
Qed.

Lemma Draw_run (opt : string) (w : World) (g a : positive) (gb tf : TF1) :
  fGlobalBackground (self w) = Some g →
  heap w !! g = Some gb →
  fTotalFunction (self w) = Some a →
  heap w !! a = Some tf →
  GetNpar tf + GetNpar gb <= Int_t_max →
  Draw opt w = Ok tt (set_gPad (gPad w ++ [(opt, draw_peak tf gb)]) w).
Proof.
  intros Eg Egb Ea Etf Hsum. unfold Draw.
  rewrite (run_bind_Ok _ _ _ _ _ (run_this _ w)), Eg.
  rewrite (run_bind_Ok _ _ _ _ _ (run_global _ _ _ Eg Egb)).
  unfold GetRange.
  rewrite (run_bind_Ok _ _ _ _ _ (run_total _ _ _ Ea Etf)).
  rewrite (run_bind_Ok _ _ _ _ _ (run_global _ _ _ Eg Egb)).
  assert (Hr : in_Int_t (GetNpar tf + GetNpar gb)).
  { unfold in_Int_t, Int_t_min, GetNpar in *. lia. }
  rewrite (run_bind_Ok _ _ _ _ _ (run_Int_add _ _ _ Hr)).
  unfold TF1_ctor. rewrite run_bind.
  rewrite (run_bind_Ok _ _ _ _ _ (run_new _ _)).
  pose proof (fresh_not_live (heap w)) as Hfresh.
  set (p := fresh (dom (heap w))) in *.
  assert (Hpa : p ≠ a) by congruence.
  assert (Hpg : p ≠ g) by congruence.
  set (t0 := mkTF1 _ _ _ _ _ _ _).
  assert (Htot : ∀ t, total (set_heap (<[p := t]> (heap w)) w)
                      = Ok tf (set_heap (<[p := t]> (heap w)) w)).
  { intros t. apply (run_total a); [exact Ea|].
    cbn [heap set_heap]. rewrite lookup_insert_ne by exact Hpa. exact Etf. }
  assert (Hglo : ∀ t, global (set_heap (<[p := t]> (heap w)) w)
                      = Ok gb (set_heap (<[p := t]> (heap w)) w)).
  { intros t. apply (run_global g); [exact Eg|].
    cbn [heap set_heap]. rewrite lookup_insert_ne by exact Hpg. exact Egb. }
  rewrite (run_bind_Ok _ _ _ _ _ (Htot _)).
  assert (Hloop1 : ∀ idx t,
            for_ idx (λ i, tf' ← total;
                           update (Some p) (SetParameter i (GetParameter tf' i)))
              (set_heap (<[p := t]> (heap w)) w)
            = Ok tt (set_heap
                       (<[p := foldl (λ t i, SetParameter i (GetParameter tf i) t) t idx]>
                          (heap w)) w)).
  { intros idx t. apply (run_for_ idx _ (λ t i, SetParameter i (GetParameter tf i) t)).
    intros i t' _. rewrite (run_bind_Ok _ _ _ _ _ (Htot _)). apply run_update_tmp. }
  assert (Hloop2 : ∀ t,
            for_ (seqZ 0 (GetNpar gb))
              (λ i, tf' ← total; j ← Int_add i (GetNpar tf'); gb' ← global;
                    update (Some p) (SetParameter j (GetParameter gb' i)))
              (set_heap (<[p := t]> (heap w)) w)
            = Ok tt (set_heap
                       (<[p := foldl (λ t i, SetParameter (i + GetNpar tf)
                                               (GetParameter gb i) t)
                                t (seqZ 0 (GetNpar gb))]>
                          (heap w)) w)).
  { intros t.
    apply (run_for_ _ _ (λ t i, SetParameter (i + GetNpar tf) (GetParameter gb i) t)).
    intros i t' Hi. rewrite (run_bind_Ok _ _ _ _ _ (Htot _)).
    apply elem_of_seqZ in Hi.
    assert (Hri : in_Int_t (i + GetNpar tf)).
    { unfold in_Int_t, Int_t_min, GetNpar in *. lia. }
    rewrite (run_bind_Ok _ _ _ _ _ (run_Int_add _ _ _ Hri)).
    rewrite (run_bind_Ok _ _ _ _ _ (Hglo _)). apply run_update_tmp. }
  rewrite (run_bind_Ok _ _ _ _ _ (Hloop1 _ _)).
  rewrite (run_bind_Ok _ _ _ _ _ (Hglo _)).
  rewrite (run_bind_Ok _ _ _ _ _ (Hloop2 _)).
  rewrite (run_bind_Ok _ _ _ _ _ (Htot _)).
  rewrite (run_bind_Ok _ _ _ _ _ (run_update_tmp _ _ _ _ _)).
  rewrite (run_bind_Ok _ _ _ _ _ (Htot _)).
  rewrite (run_bind_Ok _ _ _ _ _ (run_update_tmp _ _ _ _ _)).
  assert (Hlk : ∀ t, heap (set_heap (<[p := t]> (heap w)) w) !! p = Some t)
    by (intros t; apply lookup_insert_eq).
  rewrite (run_bind_Ok _ _ _ _ _ (run_TF1_Draw _ _ _ _ (Hlk _))).
  rewrite (run_TObject_Delete p _ _ (lookup_insert_eq _ _ _)).
  cbn [heap set_heap set_gPad self cerr gPad gStyle_FuncColor gStyle_FuncStyle].
  rewrite delete_insert_eq, (delete_id _ _ Hfresh).
  unfold t0. rewrite draw_peak_filled. reflexivity.
Qed.

Lemma run_bind_Fault {A B : Type} (c : M A) (k : A → M B) (w : World) (f : fault) :
  c w = Fault f → (c ≫= k) w = Fault f.
Proof. intros E. rewrite run_bind, E. reflexivity. Qed.

Lemma run_load_dangling (a : positive) (w : World) :
  heap w !! a = None → load (Some a) w = Fault DanglingDeref.
Proof. intros E. unfold load. rewrite E. reflexivity. Qed.

Lemma run_total_null (w : World) :
  fTotalFunction (self w) = None → total w = Fault NullDeref.
Proof.
  intros E. unfold total. rewrite (run_bind_Ok _ _ _ _ _ (run_this _ w)), E. reflexivity.
Qed.

Lemma run_total_dangling (a : positive) (w : World) :
  fTotalFunction (self w) = Some a → heap w !! a = None →
  total w = Fault DanglingDeref.
Proof.
  intros E Ea. unfold total. rewrite (run_bind_Ok _ _ _ _ _ (run_this _ w)), E.
  apply run_load_dangling, Ea.
Qed.

Lemma run_global_dangling (g : positive) (w : World) :
  fGlobalBackground (self w) = Some g → heap w !! g = None →
  global w = Fault DanglingDeref.
Proof.
  intros E Eg. unfold global. rewrite (run_bind_Ok _ _ _ _ _ (run_this _ w)), E.
  apply run_load_dangling, Eg.
Qed.

Lemma Draw_detached (opt : string) (w : World) :
  fGlobalBackground (self w) = None → Draw opt w = Ok tt w.
Proof.
  intros Eg. unfold Draw.
  rewrite (run_bind_Ok _ _ _ _ _ (run_this _ w)), Eg. reflexivity.
Qed.

(** Every way a call of [Draw] can end. *)
Lemma Draw_outcome (opt : string) (w : World) :
  (fGlobalBackground (self w) = None ∧ Draw opt w = Ok tt w)
  ∨ (∃ (g a : positive) (gb tf : TF1),
       fGlobalBackground (self w) = Some g ∧ heap w !! g = Some gb
       ∧ fTotalFunction (self w) = Some a ∧ heap w !! a = Some tf
       ∧ Draw opt w = Ok tt (set_gPad (gPad w ++ [(opt, draw_peak tf gb)]) w))
  ∨ (∃ f, Draw opt w = Fault f
          ∧ (f = NullDeref → fTotalFunction (self w) = None)).
Proof.
  destruct (fGlobalBackground (self w)) as [g|] eqn:Eg.
  2:{ left. split; [reflexivity|]. apply Draw_detached, Eg. }
  right.
  assert (Hstart : Draw opt w
    = (gb ← global;
       let '(low, high) := GetRange gb in
       tf ← total;
       gb ← global;
       npar ← Int_add (GetNpar tf) (GetNpar gb);
       f ← TF1_ctor "draw_peak" (MemberFn M_PeakOnGlobalFunction) low high npar;
       tmp_func ← new f;
       tf ← total;
       for_ (seqZ 0 (GetNpar tf)) (λ i,
         tf ← total;
         update tmp_func (SetParameter i (GetParameter tf i)));;
       gb ← global;
       for_ (seqZ 0 (GetNpar gb)) (λ i,
         tf ← total;
         j ← Int_add i (GetNpar tf);
         gb ← global;
         update tmp_func (SetParameter j (GetParameter gb i)));;
       tf ← total;
       update tmp_func (SetLineColor (GetLineColor tf));;
       tf ← total;
       update tmp_func (SetLineStyle (GetLineStyle tf));;
       TF1_Draw tmp_func opt;;
       TObject_Delete tmp_func) w).
  { unfold Draw. rewrite (run_bind_Ok _ _ _ _ _ (run_this _ w)), Eg. reflexivity. }
  destruct (heap w !! g) as [gb|] eqn:Egb.
  2:{ right. exists DanglingDeref. split; [|discriminate].
      rewrite Hstart. apply run_bind_Fault, (run_global_dangling g); assumption. }
  rewrite (run_bind_Ok _ _ _ _ _ (run_global _ _ _ Eg Egb)) in Hstart.
  unfold GetRange in Hstart.
  destruct (fTotalFunction (self w)) as [a|] eqn:Ea.
  2:{ right. exists NullDeref. split; [|reflexivity].
      rewrite Hstart. apply run_bind_Fault, run_total_null, Ea. }
  destruct (heap w !! a) as [tf|] eqn:Etf.
  2:{ right. exists DanglingDeref. split; [|discriminate].
      rewrite Hstart. apply run_bind_Fault, (run_total_dangling a); assumption. }
  destruct (decide (GetNpar tf + GetNpar gb <= Int_t_max)) as [Hsum | Hsum].
  - left. exists g, a, gb, tf. split_and!; try assumption; try reflexivity.
    apply (Draw_run opt w g a gb tf); assumption.
  - right. exists SignedOverflow. split; [|discriminate].
    rewrite Hstart.
    rewrite (run_bind_Ok _ _ _ _ _ (run_total _ _ _ Ea Etf)).
    rewrite (run_bind_Ok _ _ _ _ _ (run_global _ _ _ Eg Egb)).
    apply run_bind_Fault. unfold Int_add.
    rewrite bool_decide_false; [reflexivity|].
    unfold in_Int_t. lia.
Qed.

(** C7: with a global background attached, both function objects live and
    [N + M] within [Int_t], [Draw] hands the pad one temporary curve built on
    [PeakOnGlobalFunction]: it has [N + M] parameters, the range of the global
    background, the total function's [N] values followed by the global
    background's [M] values, and the total function's line colour and style.
    When the call returns the temporary object is gone: the heap is the heap
    from before the call, with nothing at the address the object had. *)
Theorem Draw_composite (opt : string) (w : World) (g a : positive) (gb tf : TF1) :
  fGlobalBackground (self w) = Some g →
  heap w !! g = Some gb →
  fTotalFunction (self w) = Some a →
  heap w !! a = Some tf →
  GetNpar tf + GetNpar gb <= Int_t_max →
  ∃ (tmp : TF1) (w' : World),
    Draw opt w = Ok tt w'
    ∧ gPad w' = gPad w ++ [(opt, tmp)]
    ∧ fFunctor tmp = MemberFn M_PeakOnGlobalFunction
    ∧ GetNpar tmp = GetNpar tf + GetNpar gb
    ∧ GetRange tmp = GetRange gb
    ∧ fParams tmp = fParams tf ++ fParams gb
    ∧ (∀ i, 0 <= i < GetNpar tf → GetParameter tmp i = GetParameter tf i)
    ∧ (∀ i, 0 <= i < GetNpar gb → GetParameter tmp (i + GetNpar tf) = GetParameter gb i)
    ∧ GetLineColor tmp = GetLineColor tf
    ∧ GetLineStyle tmp = GetLineStyle tf
    ∧ heap w' = heap w
    ∧ heap w' !! fresh (dom (heap w)) = None.
Proof.
  intros Eg Egb Ea Etf Hsum.
  exists (draw_peak tf gb), (set_gPad (gPad w ++ [(opt, draw_peak tf gb)]) w).
  split; [apply (Draw_run opt w g a gb tf); assumption|].
  cbn [gPad heap set_gPad].
  assert (Hn : GetNpar (draw_peak tf gb) = GetNpar tf + GetNpar gb).
  { unfold GetNpar, draw_peak. cbn [fParams]. rewrite length_app. lia. }
  split_and!; try reflexivity.
  - exact Hn.
  - intros i Hi. unfold GetNpar in *.
    rewrite !GetParameter_lookup by (unfold GetNpar; lia).
    unfold draw_peak. cbn [fParams].
    rewrite lookup_app_l by lia. reflexivity.
  - intros i Hi. unfold GetNpar in *.
    rewrite !GetParameter_lookup by (unfold GetNpar; lia).
    unfold draw_peak. cbn [fParams].
    rewrite lookup_app_r by lia. f_equal. f_equal. lia.
  - apply fresh_not_live.
Qed.

Lemma Draw_composite_witness :
  ∃ (tmp : TF1) (w' : World),
    Draw "same" Demo.on_global = Ok tt w'
    ∧ gPad w' = gPad Demo.on_global ++ [("same", tmp)]
    ∧ fFunctor tmp = MemberFn M_PeakOnGlobalFunction
    ∧ GetNpar tmp = GetNpar Demo.total_fn + GetNpar Demo.global_fn
    ∧ GetRange tmp = GetRange Demo.global_fn
    ∧ fParams tmp = fParams Demo.total_fn ++ fParams Demo.global_fn
    ∧ (∀ i, 0 <= i < GetNpar Demo.total_fn →
            GetParameter tmp i = GetParameter Demo.total_fn i)
    ∧ (∀ i, 0 <= i < GetNpar Demo.global_fn →
            GetParameter tmp (i + GetNpar Demo.total_fn) = GetParameter Demo.global_fn i)
    ∧ GetLineColor tmp = GetLineColor Demo.total_fn
    ∧ GetLineStyle tmp = GetLineStyle Demo.total_fn
    ∧ heap w' = heap Demo.on_global
    ∧ heap w' !! fresh (dom (heap Demo.on_global)) = None.
Proof.
  apply (Draw_composite "same" Demo.on_global 2%positive 1%positive
           Demo.global_fn Demo.total_fn);
    first [reflexivity | vm_compute; discriminate].
Defined.

(** The demo peak on its global background: one curve reaches the pad, over
    the five values 10, 2, 0.5, 1, 1 and the range of the global background;
    nothing else changes. *)
Example Draw_demo :
  Draw "same" Demo.on_global
  = Ok tt (set_gPad
             [("same",
               mkTF1 "draw_peak" (MemberFn M_PeakOnGlobalFunction) 0 100
                     [10; 2; 0.5; 1; 1]%float 2 1)]
             Demo.on_global).
Proof. vm_compute. reflexivity. Qed.

(** C9: with no global background attached [Draw] returns at once and the
    world is untouched, pad and error stream included.  Whenever [Draw]
    returns, the members of the peak and the whole heap, hence the total
    function, the cached background function, the global background and all
    their parameter values, are what they were before the call; and it does
    return when the global background and the total function are live and
    [N + M] is within [Int_t]. *)
Theorem Draw_frame (opt : string) (w : World) :
  (fGlobalBackground (self w) = None → Draw opt w = Ok tt w)
  ∧ (∀ (r : unit) (w' : World),
       Draw opt w = Ok r w' →
       self w' = self w ∧ heap w' = heap w ∧ cerr w' = cerr w)
  ∧ (∀ (g a : positive) (gb tf : TF1),
       fGlobalBackground (self w) = Some g →
       heap w !! g = Some gb →
       fTotalFunction (self w) = Some a →
       heap w !! a = Some tf →
       GetNpar tf + GetNpar gb <= Int_t_max →
       ∃ w', Draw opt w = Ok tt w'
             ∧ self w' = self w ∧ heap w' = heap w ∧ cerr w' = cerr w).
Proof.
  split; [apply Draw_detached|]. split.
  - intros r w' E.
    destruct (Draw_outcome opt w)
      as [[_ E'] | [(g & a & gb & tf & _ & _ & _ & _ & E') | (f & E' & _)]];
      rewrite E' in E.
    + injection E as _ <-. split_and!; reflexivity.
    + injection E as _ <-. split_and!; reflexivity.
    + discriminate.
  - intros g a gb tf Eg Egb Ea Etf Hsum.
    eexists. split; [apply (Draw_run opt w g a gb tf); assumption|].
    split_and!; reflexivity.
Qed.

Lemma Draw_frame_witness :
  Draw "same" Demo.fitted = Ok tt Demo.fitted
  ∧ (∃ w', Draw "same" Demo.on_global = Ok tt w'
           ∧ self w' = self Demo.on_global
           ∧ heap w' = heap Demo.on_global
           ∧ cerr w' = cerr Demo.on_global)
  ∧ (∀ (r : unit) (w' : World),
       Draw "same" Demo.on_global = Ok r w' →
       self w' = self Demo.on_global
       ∧ heap w' = heap Demo.on_global
       ∧ cerr w' = cerr Demo.on_global).
Proof.
  split; [|split].
  - apply (proj1 (Draw_frame "same" Demo.fitted)). reflexivity.
  - apply (proj2 (proj2 (Draw_frame "same" Demo.on_global))
             2%positive 1%positive Demo.global_fn Demo.total_fn);
      first [reflexivity | vm_compute; discriminate].
  - apply (proj1 (proj2 (Draw_frame "same" Demo.on_global))).
Defined.

(** ** The total function as a precondition *)

Lemma GetBackgroundFunction_null_total (w : World) :
  fTotalFunction (self w) = None →
  fBackgroundFunction (self w) = None →
  GetBackgroundFunction w = Fault NullDeref.
Proof.
  intros Ea Eb. unfold GetBackgroundFunction.
  rewrite (run_bind_Ok _ _ _ _ _ (run_this _ w)), Eb.
  apply run_bind_Fault, run_bind_Fault, run_total_null, Ea.
Qed.

Lemma GetBackgroundFunction_no_null (w : World) :
  fTotalFunction (self w) ≠ None →
  GetBackgroundFunction w ≠ Fault NullDeref.
Proof.
  intros Ha.
  destruct (fBackgroundFunction (self w)) as [p|] eqn:Eb.
  { rewrite (GetBackgroundFunction_cached w p Eb). discriminate. }
  destruct (fTotalFunction (self w)) as [a|] eqn:Ea; [clear Ha|congruence].
  destruct (heap w !! a) as [tf|] eqn:Etf.
  - rewrite (GetBackgroundFunction_first w a tf Eb Ea Etf). discriminate.
  - unfold GetBackgroundFunction.
    rewrite (run_bind_Ok _ _ _ _ _ (run_this _ w)), Eb.
    rewrite (run_bind_Fault _ _ _ DanglingDeref); [discriminate|].
    apply run_bind_Fault, (run_total_dangling a); assumption.
Qed.

Lemma PeakOnGlobalFunction_null_total `{PeakShape} (fuel : nat)
    (dim par : list Double_t) (w : World) (g : positive) :
  fTotalFunction (self w) = None →
  fGlobalBackground (self w) = Some g →
  PeakOnGlobalFunction fuel dim par w = Fault NullDeref.
Proof.
  intros Ea Eg. unfold PeakOnGlobalFunction, PeakOnGlobalFunction_body.
  rewrite (run_bind_Ok _ _ _ _ _ (run_this _ w)), Eg.
  apply run_bind_Fault, run_total_null, Ea.
Qed.

Lemma PeakOnGlobalFunction_body_no_null `{PeakShape}
    (eval : TF1 → list Double_t → list Double_t → M Double_t)
    (dim par : list Double_t) (w : World) :
  fTotalFunction (self w) ≠ None →
  (∀ f d p, eval f d p w ≠ Fault NullDeref) →
  PeakOnGlobalFunction_body eval dim par w ≠ Fault NullDeref.
Proof.
  intros Ha Heval. unfold PeakOnGlobalFunction_body.
  rewrite (run_bind_Ok _ _ _ _ _ (run_this _ w)).
  destruct (fGlobalBackground (self w)) as [g|] eqn:Eg; [|discriminate].
  destruct (fTotalFunction (self w)) as [a|] eqn:Ea; [clear Ha|congruence].
  destruct (heap w !! a) as [tf|] eqn:Etf.
  2:{ rewrite (run_bind_Fault _ _ _ DanglingDeref); [discriminate|].
      apply (run_total_dangling a); assumption. }
  rewrite (run_bind_Ok _ _ _ _ _ (run_total _ _ _ Ea Etf)).
  destruct (heap w !! g) as [gb|] eqn:Egb.
  2:{ rewrite (run_bind_Fault _ _ _ DanglingDeref); [discriminate|].
      apply run_load_dangling, Egb. }
  rewrite (run_bind_Ok _ _ _ _ _ (run_load_Some _ _ _ Egb)).
  rewrite run_bind.
  specialize (Heval gb dim (drop (Z.to_nat (GetNpar tf)) par)).
  destruct (eval gb dim _ w) as [v w' | e w' | f |]; try discriminate.
  congruence.
Qed.

Lemma EvalPar_no_null `{PeakShape} (fuel : nat) (f : TF1)
    (dim par : list Double_t) (w : World) :
  fTotalFunction (self w) ≠ None →
  EvalPar fuel f dim par w ≠ Fault NullDeref.
Proof.
  intros Ha. revert f dim par.
  induction fuel as [|fuel IH]; intros f dim par; [discriminate|].
  cbn [EvalPar]. destruct (fFunctor f) as [h | [ | | ]]; try discriminate.
  apply PeakOnGlobalFunction_body_no_null; assumption.
Qed.

(** C10: the first call of [GetBackgroundFunction], a call of
    [PeakOnGlobalFunction] with a global background attached and a call of
    [Draw] with a live global background attached each follow the pointer to
    the total function: with that pointer null they end in a null
    dereference.  With the pointer not null none of the three, in any world
    and on any arguments, ends in a null dereference. *)
Theorem total_function_precondition `{PeakShape} (w : World) :
  (fTotalFunction (self w) = None →
     (fBackgroundFunction (self w) = None →
        GetBackgroundFunction w = Fault NullDeref)
     ∧ (∀ (fuel : nat) (dim par : list Double_t) (g : positive),
          fGlobalBackground (self w) = Some g →
          PeakOnGlobalFunction fuel dim par w = Fault NullDeref)
     ∧ (∀ (opt : string) (g : positive) (gb : TF1),
          fGlobalBackground (self w) = Some g →
          heap w !! g = Some gb →
          Draw opt w = Fault NullDeref))
  ∧ (fTotalFunction (self w) ≠ None →
     GetBackgroundFunction w ≠ Fault NullDeref
     ∧ (∀ (fuel : nat) (dim par : list Double_t),
          PeakOnGlobalFunction fuel dim par w ≠ Fault NullDeref)
     ∧ (∀ opt : string, Draw opt w ≠ Fault NullDeref)).
Proof.
  split.
  - intros Ea. split_and!.
    + apply GetBackgroundFunction_null_total, Ea.
    + intros fuel dim par g. apply PeakOnGlobalFunction_null_total, Ea.
    + intros opt g gb Eg Egb. unfold Draw.
      rewrite (run_bind_Ok _ _ _ _ _ (run_this _ w)), Eg.
      rewrite (run_bind_Ok _ _ _ _ _ (run_global _ _ _ Eg Egb)).
      unfold GetRange. apply run_bind_Fault, run_total_null, Ea.
  - intros Ha. split_and!.
    + apply GetBackgroundFunction_no_null, Ha.
    + intros fuel dim par. unfold PeakOnGlobalFunction.
      apply PeakOnGlobalFunction_body_no_null; [exact Ha|].
      intros f d p. apply EvalPar_no_null, Ha.
    + intros opt E.
      destruct (Draw_outcome opt w)
        as [[_ E'] | [(g & a & gb & tf & _ & _ & _ & _ & E') | (f & E' & Hf)]];
        rewrite E' in E; try discriminate.
      injection E as ->. apply Ha, Hf. reflexivity.
Qed.

Lemma total_function_precondition_witness :
  (GetBackgroundFunction Demo.global_only = Fault NullDeref
   ∧ @PeakOnGlobalFunction Demo.shape 1 [3]%float [10; 2; 0.5; 1; 1]%float
       Demo.global_only = Fault NullDeref
   ∧ Draw "same" Demo.global_only = Fault NullDeref)
  ∧ (GetBackgroundFunction Demo.on_global ≠ Fault NullDeref
     ∧ (∀ (fuel : nat) (dim par : list Double_t),
          @PeakOnGlobalFunction Demo.shape fuel dim par Demo.on_global
          ≠ Fault NullDeref)
     ∧ (∀ opt : string, Draw opt Demo.on_global ≠ Fault NullDeref)).
Proof.
  split.
  - destruct (proj1 (@total_function_precondition Demo.shape Demo.global_only) eq_refl)
      as (Hb & Hp & Hd).
    split_and!.
    + apply Hb. reflexivity.
    + apply (Hp 1%nat _ _ 2%positive). reflexivity.
    + apply (Hd "same" 2%positive Demo.global_fn); reflexivity.
  - apply (proj2 (@total_function_precondition Demo.shape Demo.on_global)).
    discriminate.
Defined.

(** * Further properties of the classifier and the cached background *)

(** X1: for a valid index the classifier answers from the table and does
    nothing else: [IsBackgroundParameter] returns the table entry,
    [IsPeakParameter] its negation, and the world, error stream included, is
    left as it was. *)
Theorem classify_in_range (par : Int_t) (w : World) (b : bool) :
  Z.of_nat (length (fListOfBGPars (self w))) <= vector_max_size →
  0 <= par →
  fListOfBGPars (self w) !! Z.to_nat par = Some b →
  IsBackgroundParameter par w = Ok b w
  ∧ IsPeakParameter par w = Ok (negb b) w.
Proof.
  intros Hsz Hpos Hb.
  pose proof (IsBackgroundParameter_valid par w b Hsz Hpos Hb) as E.
  split; [exact E|]. apply IsPeakParameter_run, E.
Qed.

Lemma classify_in_range_witness :
  IsBackgroundParameter 2 Demo.fitted = Ok true Demo.fitted
  ∧ IsPeakParameter 2 Demo.fitted = Ok false Demo.fitted.
Proof.
  apply (classify_in_range 2 Demo.fitted true).
  - unfold vector_max_size. simpl. lia.
  - lia.
  - reflexivity.
Defined.

Lemma snoc_ne {A : Type} (l : list A) (x : A) : l ++ [x] ≠ l.
Proof.
  intros E. apply (f_equal length) in E. rewrite length_app in E. simpl in E. lia.
Qed.

(** X2: the classifier touches nothing but the error stream, and it writes
    there exactly when the index is invalid: the members of the peak, the
    heap and the pad are as before, and the error stream is unchanged if and
    only if the index lies in [0, N); otherwise it has gained the one line
    "Parameter not in list: <index>". *)
Theorem classify_warns_iff_invalid (par : Int_t) (w : World) :
  in_Int_t par →
  Z.of_nat (length (fListOfBGPars (self w))) <= vector_max_size →
  ∃ (b : bool) (w' : World),
    IsBackgroundParameter par w = Ok b w'
    ∧ self w' = self w ∧ heap w' = heap w ∧ gPad w' = gPad w
    ∧ (cerr w' = cerr w ↔ 0 <= par < Z.of_nat (length (fListOfBGPars (self w))))
    ∧ (cerr w' = cerr w
       ∨ cerr w' = cerr w ++ ["Parameter not in list: " +:+ pretty par]).
Proof.
  intros Hr Hsz.
  destruct (decide (0 <= par < Z.of_nat (length (fListOfBGPars (self w)))))
    as [Hin | Hout].
  - destruct (lookup_lt_is_Some_2 (fListOfBGPars (self w)) (Z.to_nat par)) as [b Hb];
      [lia|].
    exists b, w. rewrite (IsBackgroundParameter_valid par w b Hsz) by (lia || exact Hb).
    split_and!; try reflexivity; [|left; reflexivity]. split; intros _; [exact Hin|reflexivity].
  - exists true, (warned par w).
    rewrite (IsBackgroundParameter_invalid par w Hr Hsz Hout).
    split_and!; try reflexivity; [|right; reflexivity].
    unfold warned. cbn [cerr set_cerr]. split.
    + intros E. exfalso. exact (snoc_ne _ _ E).
    + intros Hin. contradiction.
Qed.

Lemma classify_warns_iff_invalid_witness :
  ∃ (b : bool) (w' : World),
    IsBackgroundParameter 7 Demo.fitted = Ok b w'
    ∧ self w' = self Demo.fitted ∧ heap w' = heap Demo.fitted
    ∧ gPad w' = gPad Demo.fitted
    ∧ (cerr w' = cerr Demo.fitted
       ↔ 0 <= 7 < Z.of_nat (length (fListOfBGPars (self Demo.fitted))))
    ∧ (cerr w' = cerr Demo.fitted
       ∨ cerr w' = cerr Demo.fitted ++ ["Parameter not in list: " +:+ pretty 7]).
Proof.
  apply (classify_warns_iff_invalid 7 Demo.fitted).
  - unfold in_Int_t, Int_t_min, Int_t_max. lia.
  - unfold vector_max_size. simpl. lia.
Defined.

(** X3: [GetBackgroundFunction] is idempotent: in every world, calling it
    twice ends exactly as calling it once, with the same pointer and the same
    world, or with the same fault. *)
Theorem GetBackgroundFunction_idempotent (w : World) :
  (GetBackgroundFunction ≫= λ _, GetBackgroundFunction) w = GetBackgroundFunction w.
Proof.
  rewrite run_bind.
  destruct (fBackgroundFunction (self w)) as [p|] eqn:Eb.
  { rewrite (GetBackgroundFunction_cached w p Eb).
    apply GetBackgroundFunction_cached, Eb. }
  destruct (fTotalFunction (self w)) as [a|] eqn:Ea.
  2:{ rewrite (GetBackgroundFunction_null_total w Ea Eb). reflexivity. }
  destruct (heap w !! a) as [tf|] eqn:Etf.
  - rewrite (GetBackgroundFunction_first w a tf Eb Ea Etf).
    apply (GetBackgroundFunction_cached _ (fresh (dom (heap w)))). reflexivity.
  - assert (E : GetBackgroundFunction w = Fault DanglingDeref).
    { unfold GetBackgroundFunction.
      rewrite (run_bind_Ok _ _ _ _ _ (run_this _ w)), Eb.
      apply run_bind_Fault, run_bind_Fault, (run_total_dangling a); assumption. }
    rewrite E. reflexivity.
Qed.

Lemma GetBackgroundFunction_then_update_witness :
  ∃ (p : positive) (w1 w2 : World) (bg : TF1),
    GetBackgroundFunction Demo.fitted = Ok (Some p) w1
    ∧ UpdateBackgroundParameters w1 = Ok tt w2
    ∧ heap w2 !! p = Some bg
    ∧ fParams bg = fParams Demo.total_fn
    ∧ heap w2 !! 1%positive = Some Demo.total_fn.
Proof.
  apply (GetBackgroundFunction_then_update Demo.fitted 1%positive Demo.total_fn);
    reflexivity.
Defined.

(** X5: [UpdateBackgroundParameters] goes through both pointers.  It ends in
    a null dereference when the total function is null, and when the total
    function is live and the background function is null; with neither
    pointer null it never ends in a null dereference. *)
Theorem UpdateBackgroundParameters_null_pointers (w : World) :
  (fTotalFunction (self w) = None →
   UpdateBackgroundParameters w = Fault NullDeref)
  ∧ (∀ (a : positive) (tf : TF1),
       fTotalFunction (self w) = Some a → heap w !! a = Some tf →
       fBackgroundFunction (self w) = None →
       UpdateBackgroundParameters w = Fault NullDeref)
  ∧ (fTotalFunction (self w) ≠ None → fBackgroundFunction (self w) ≠ None →
     UpdateBackgroundParameters w ≠ Fault NullDeref).
Proof.
  split_and!.
  - intros Ea. unfold UpdateBackgroundParameters.
    apply run_bind_Fault, run_total_null, Ea.
  - intros a tf Ea Etf Eb. unfold UpdateBackgroundParameters.
    rewrite (run_bind_Ok _ _ _ _ _ (run_total _ _ _ Ea Etf)).
    rewrite (run_bind_Ok _ _ _ _ _ (run_this _ w)), Eb. reflexivity.
  - intros Ha Hb. unfold UpdateBackgroundParameters.
    destruct (fTotalFunction (self w)) as [a|] eqn:Ea; [clear Ha|congruence].
    destruct (heap w !! a) as [tf|] eqn:Etf.
    2:{ rewrite (run_bind_Fault _ _ _ DanglingDeref); [discriminate|].
        apply (run_total_dangling a); assumption. }
    rewrite (run_bind_Ok _ _ _ _ _ (run_total _ _ _ Ea Etf)).
    rewrite (run_bind_Ok _ _ _ _ _ (run_this _ w)).
    destruct (fBackgroundFunction (self w)) as [b|] eqn:Eb; [clear Hb|congruence].
    destruct (heap w !! b) as [bg|] eqn:Ebg.
    2:{ rewrite (run_bind_Fault _ _ _ DanglingDeref); [discriminate|].
        apply run_load_dangling, Ebg. }
    rewrite (run_bind_Ok _ _ _ _ _ (run_load_Some _ _ _ Ebg)).
    destruct (SetParameters (GetParameters tf) bg) as [f'|]; [|discriminate].
    rewrite (run_update _ _ _ _ Ebg). discriminate.
Qed.

Lemma UpdateBackgroundParameters_null_pointers_witness :
  UpdateBackgroundParameters Demo.blank = Fault NullDeref
  ∧ UpdateBackgroundParameters Demo.fitted = Fault NullDeref
  ∧ UpdateBackgroundParameters Demo.with_background ≠ Fault NullDeref.
Proof.
  split_and!.
  - apply (proj1 (UpdateBackgroundParameters_null_pointers Demo.blank)). reflexivity.
  - apply (proj1 (proj2 (UpdateBackgroundParameters_null_pointers Demo.fitted))
             1%positive Demo.total_fn); reflexivity.
  - apply (proj2 (proj2 (UpdateBackgroundParameters_null_pointers Demo.with_background)));
      discriminate.
Defined.

(** X6: [UpdateBackgroundParameters] is idempotent: with both function
    objects live and the background function no longer than the total
    function, a second call changes nothing that the first left. *)
Theorem UpdateBackgroundParameters_idempotent (w : World) (a b : positive) (tf bg : TF1) :
  fTotalFunction (self w) = Some a →
  heap w !! a = Some tf →
  fBackgroundFunction (self w) = Some b →
  heap w !! b = Some bg →
  GetNpar bg <= GetNpar tf →
  ∃ w', UpdateBackgroundParameters w = Ok tt w'
        ∧ UpdateBackgroundParameters w' = Ok tt w'.
Proof.
  intros Ea Etf Eb Ebg Hn.
  pose proof (UpdateBackgroundParameters_run w a b tf bg Ea Etf Eb Ebg Hn) as E1.
  set (bg' := with_params (take (length (fParams bg)) (fParams tf)) bg) in *.
  set (w' := set_heap (<[b := bg']> (heap w)) w) in *.
  exists w'. split; [exact E1|].
  assert (Hlen : length (fParams bg') = length (fParams bg)).
  { unfold bg'. cbn [fParams with_params]. rewrite length_take.
    unfold GetNpar in Hn. lia. }
  assert (Ebg' : heap w' !! b = Some bg') by apply lookup_insert_eq.
  assert (∃ tf', heap w' !! a = Some tf' ∧ fParams tf' = fParams tf) as (tf' & Etf' & Epar).
  { destruct (decide (a = b)) as [-> | Hab].
    - exists bg'. split; [exact Ebg'|].
      assert (bg = tf) as -> by congruence.
      unfold bg'. cbn [fParams with_params]. apply firstn_all.
    - exists tf. split; [|reflexivity].
      unfold w'. cbn [heap set_heap]. rewrite lookup_insert_ne by congruence. exact Etf. }
  rewrite (UpdateBackgroundParameters_run w' a b tf' bg' Ea Etf' Eb Ebg')
    by (unfold GetNpar in *; rewrite Hlen, Epar; exact Hn).
  assert (Efix : with_params (take (length (fParams bg')) (fParams tf')) bg' = bg').
  { rewrite Hlen, Epar. reflexivity. }
  rewrite Efix. unfold w'. cbn [heap set_heap]. rewrite insert_insert_eq.
  reflexivity.
Qed.

Lemma UpdateBackgroundParameters_idempotent_witness :
  ∃ w', UpdateBackgroundParameters Demo.with_background = Ok tt w'
        ∧ UpdateBackgroundParameters w' = Ok tt w'.
Proof.
  apply (UpdateBackgroundParameters_idempotent Demo.with_background
           1%positive 2%positive Demo.total_fn Demo.background_fn);
    first [reflexivity | vm_compute; discriminate].
Defined.

(** * Further properties of the composite function and of drawing *)

Lemma run_ret {A : Type} (a : A) (w : World) : (mret a : M A) w = Ok a w.
Proof. reflexivity. Qed.

Lemma PeakOnGlobalFunction_body_pure `{PeakShape}
    (eval : TF1 → list Double_t → list Double_t → M Double_t)
    (dim par : list Double_t) (w : World) :
  (∀ f d p, (∀ v w', eval f d p w = Ok v w' → w' = w)
            ∧ ¬ raises (eval f d p) w) →
  (∀ v w', PeakOnGlobalFunction_body eval dim par w = Ok v w' → w' = w)
  ∧ ¬ raises (PeakOnGlobalFunction_body eval dim par) w.
Proof.
  intros Heval. unfold raises, PeakOnGlobalFunction_body.
  rewrite (run_bind_Ok _ _ _ _ _ (run_this _ w)).
  destruct (fGlobalBackground (self w)) as [g|] eqn:Eg.
  2:{ rewrite run_ret. split; [intros v w' E; congruence | intros (e & w' & E); discriminate]. }
  assert (Hfault : ∀ (c : M Double_t) (f : fault), c w = Fault f →
            (∀ v w', c w = Ok v w' → w' = w) ∧ ¬ (∃ e w', c w = Throw e w')).
  { intros c f E. rewrite E.
    split; [discriminate | intros (e & w' & E'); discriminate]. }
  destruct (fTotalFunction (self w)) as [a|] eqn:Ea.
  2:{ apply (Hfault _ NullDeref), run_bind_Fault, run_total_null, Ea. }
  destruct (heap w !! a) as [tf|] eqn:Etf.
  2:{ apply (Hfault _ DanglingDeref), run_bind_Fault, (run_total_dangling a); assumption. }
  rewrite (run_bind_Ok _ _ _ _ _ (run_total _ _ _ Ea Etf)).
  destruct (heap w !! g) as [gb|] eqn:Egb.
  2:{ apply (Hfault _ DanglingDeref), run_bind_Fault, run_load_dangling, Egb. }
  rewrite (run_bind_Ok _ _ _ _ _ (run_load_Some _ _ _ Egb)).
  rewrite run_bind.
  destruct (Heval gb dim (drop (Z.to_nat (GetNpar tf)) par)) as [Hok Hno].
  destruct (eval gb dim _ w) as [v w1 | e w1 | f |] eqn:Ev.
  - specialize (Hok v w1 eq_refl). subst w1. rewrite run_ret.
    split; [intros v' w' E; congruence | intros (e & w' & E); discriminate].
  - exfalso. apply Hno. unfold raises. eauto.
  - split; [discriminate | intros (e & w' & E); discriminate].
  - split; [discriminate | intros (e & w' & E); discriminate].
Qed.

Lemma EvalPar_pure `{PeakShape} (fuel : nat) (f : TF1) (dim par : list Double_t)
    (w : World) :
  (∀ v w', EvalPar fuel f dim par w = Ok v w' → w' = w)
  ∧ ¬ raises (EvalPar fuel f dim par) w.
Proof.
  revert f dim par. induction fuel as [|fuel IH]; intros f dim par.
  - split; [discriminate | intros (e & w' & E); discriminate].
  - cbn [EvalPar]. destruct (fFunctor f) as [h | [ | | ]]; rewrite ?run_ret.
    + split; [intros v w' E; congruence | intros (e & w' & E); discriminate].
    + split; [intros v w' E; congruence | intros (e & w' & E); discriminate].
    + split; [intros v w' E; congruence | intros (e & w' & E); discriminate].
    + apply PeakOnGlobalFunction_body_pure. exact IH.
Qed.

(** X7: evaluating [PeakOnGlobalFunction] has no side effect: whatever the
    global background is built on and however deep the evaluation goes, a
    call that returns leaves the world exactly as it was, and no call ends
    with an exception. *)
Theorem PeakOnGlobalFunction_pure `{PeakShape} (fuel : nat)
    (dim par : list Double_t) (w : World) :
  (∀ v w', PeakOnGlobalFunction fuel dim par w = Ok v w' → w' = w)
  ∧ ¬ raises (PeakOnGlobalFunction fuel dim par) w.
Proof.
  unfold PeakOnGlobalFunction. apply PeakOnGlobalFunction_body_pure.
  intros f d p. apply EvalPar_pure.
Qed.

Lemma PeakOnGlobalFunction_pure_witness :
  (∀ v w', @PeakOnGlobalFunction Demo.shape 1 [3]%float [10; 2; 0.5; 1; 1]%float
             Demo.on_global = Ok v w' → w' = Demo.on_global)
  ∧ ¬ raises (@PeakOnGlobalFunction Demo.shape 1 [3]%float [10; 2; 0.5; 1; 1]%float)
        Demo.on_global.
Proof.
  exact (@PeakOnGlobalFunction_pure Demo.shape 1 [3]%float [10; 2; 0.5; 1; 1]%float
           Demo.on_global).
Defined.

(** X8: [Draw] can be repeated: under the conditions of a first call a
    second call succeeds as well, and the pad receives the same curve again,
    each time rebuilt from the current state; the heap is as before the
    first call. *)
Theorem Draw_twice (opt1 opt2 : string) (w : World) (g a : positive) (gb tf : TF1) :
  fGlobalBackground (self w) = Some g →
  heap w !! g = Some gb →
  fTotalFunction (self w) = Some a →
  heap w !! a = Some tf →
  GetNpar tf + GetNpar gb <= Int_t_max →
  (Draw opt1 ≫= λ _, Draw opt2) w
  = Ok tt (set_gPad (gPad w ++ [(opt1, draw_peak tf gb); (opt2, draw_peak tf gb)]) w).
Proof.
  intros Eg Egb Ea Etf Hsum.
  rewrite (run_bind_Ok _ _ _ _ _ (Draw_run opt1 w g a gb tf Eg Egb Ea Etf Hsum)).
  rewrite (Draw_run opt2 (set_gPad (gPad w ++ [(opt1, draw_peak tf gb)]) w)
             g a gb tf Eg Egb Ea Etf Hsum).
  cbn [gPad set_gPad]. rewrite <- app_assoc. reflexivity.
Qed.

Lemma Draw_twice_witness :
  (Draw "" ≫= λ _, Draw "same") Demo.on_global
  = Ok tt (set_gPad (gPad Demo.on_global
                     ++ [("", draw_peak Demo.total_fn Demo.global_fn);
                         ("same", draw_peak Demo.total_fn Demo.global_fn)])
             Demo.on_global).
Proof.
  apply (Draw_twice "" "same" Demo.on_global 2%positive 1%positive
           Demo.global_fn Demo.total_fn);
    first [reflexivity | vm_compute; discriminate].
Defined.

(** X9: what [Draw] shows is the peak on the global background at the
    fitted parameters.  The curve it hands to the pad, evaluated on its own
    parameters, gives the peak function of those parameters plus the global
    background evaluated on the global background's own current parameters;
    and as the peak function reads only the total function's [N] parameters,
    that is the peak function of the total function's parameters. *)
Theorem Draw_shows_peak_on_global `{PeakShape} (opt : string) (w : World)
    (g a : positive) (gb tf : TF1) (h : list Double_t → list Double_t → Double_t) :
  fGlobalBackground (self w) = Some g →
  heap w !! g = Some gb →
  fFunctor gb = ExternalFn h →
  fTotalFunction (self w) = Some a →
  heap w !! a = Some tf →
  GetNpar tf + GetNpar gb <= Int_t_max →
  ∃ (c : TF1) (w' : World),
    Draw opt w = Ok tt w'
    ∧ gPad w' = gPad w ++ [(opt, c)]
    ∧ ∀ (fuel : nat) (dim : list Double_t),
        EvalPar (S (S fuel)) c dim (fParams c) w'
        = Ok (PeakFunction dim (fParams tf ++ fParams gb) + h dim (fParams gb))%float w'
        ∧ (reads_only (Z.to_nat (GetNpar tf)) PeakFunction →
           EvalPar (S (S fuel)) c dim (fParams c) w'
           = Ok (PeakFunction dim (fParams tf) + h dim (fParams gb))%float w').
Proof.
  intros Eg Egb Eh Ea Etf Hsum.
  exists (draw_peak tf gb), (set_gPad (gPad w ++ [(opt, draw_peak tf gb)]) w).
  split; [apply (Draw_run opt w g a gb tf); assumption|].
  split; [reflexivity|].
  intros fuel dim.
  set (w' := set_gPad _ w).
  assert (Edrop : drop (Z.to_nat (GetNpar tf)) (fParams tf ++ fParams gb) = fParams gb).
  { unfold GetNpar. rewrite Nat2Z.id. apply drop_app_length. }
  assert (E : EvalPar (S (S fuel)) (draw_peak tf gb) dim (fParams (draw_peak tf gb)) w'
              = Ok (PeakFunction dim (fParams tf ++ fParams gb) + h dim (fParams gb))%float w').
  { change (EvalPar (S (S fuel)) (draw_peak tf gb) dim (fParams (draw_peak tf gb)) w')
      with (PeakOnGlobalFunction (S fuel) dim (fParams tf ++ fParams gb) w').
    apply (PeakOnGlobalFunction_run (S fuel) dim _ w' g a gb tf); try assumption.
    rewrite Edrop. apply EvalPar_external, Eh. }
  split; [exact E|].
  intros Hpeak. rewrite E. do 2 f_equal.
  rewrite <- (reads_only_take _ PeakFunction dim (fParams tf ++ fParams gb) Hpeak).
  unfold GetNpar. rewrite Nat2Z.id, take_app_length. reflexivity.
Qed.

Lemma Draw_shows_peak_on_global_witness :
  ∃ (c : TF1) (w' : World),
    Draw "same" Demo.on_global = Ok tt w'
    ∧ gPad w' = gPad Demo.on_global ++ [("same", c)]
    ∧ ∀ (fuel : nat) (dim : list Double_t),
        @EvalPar Demo.shape (S (S fuel)) c dim (fParams c) w'
        = Ok (@PeakFunction Demo.shape dim (fParams Demo.total_fn ++ fParams Demo.global_fn)
              + Demo.line dim (fParams Demo.global_fn))%float w'
        ∧ (reads_only (Z.to_nat (GetNpar Demo.total_fn)) (@PeakFunction Demo.shape) →
           @EvalPar Demo.shape (S (S fuel)) c dim (fParams c) w'
           = Ok (@PeakFunction Demo.shape dim (fParams Demo.total_fn)
                 + Demo.line dim (fParams Demo.global_fn))%float w').
Proof.
  apply (@Draw_shows_peak_on_global Demo.shape "same" Demo.on_global
           2%positive 1%positive Demo.global_fn Demo.total_fn Demo.line);
    first [reflexivity | vm_compute; discriminate].
Defined.

(** * TBGOData: filling and reading the hit vectors *)

Lemma at_snoc_new {A : Type} (v : list A) (x : A) (i : N) (d : BGOData.TBGOData) :
  N.to_nat i = length v → BGOData.at_ (v ++ [x]) i d = BGOData.Returns x d.
Proof.
  intros E. unfold BGOData.at_. rewrite E.
  rewrite lookup_app_r, Nat.sub_diag by lia. reflexivity.
Qed.

Lemma at_snoc_old {A : Type} (v : list A) (x : A) (i : N) (d d' : BGOData.TBGOData) :
  (N.to_nat i < length v)%nat →
  BGOData.returned (BGOData.at_ (v ++ [x]) i d') = BGOData.returned (BGOData.at_ v i d).
Proof.
  intros Hlt. unfold BGOData.at_. rewrite lookup_app_l by exact Hlt.
  destruct (v !! N.to_nat i); reflexivity.
Qed.

Lemma at_beyond {A : Type} (v : list A) (i : N) (d : BGOData.TBGOData) :
  (length v ≤ N.to_nat i)%nat → BGOData.at_ v i d = BGOData.Throws out_of_range d.
Proof.
  intros Hge. unfold BGOData.at_. rewrite lookup_ge_None_2 by exact Hge. reflexivity.
Qed.

(** X10: [SetBGO] on eight values keeps the hit vectors in step: if the
    eight vectors all hold [n] entries before the call they all hold [n + 1]
    after it, the waveform vector is not touched, and the multiplicity has
    gone from [n] to [n + 1] (as long as that fits 32 bits). *)
Theorem SetBGO_keeps_aligned (n : nat) (clv cry pm q : Z) (e cfd led t : Double_t)
    (d : BGOData.TBGOData) :
  BGOData.aligned n d →
  Z.of_nat n + 1 < 2 ^ 32 →
  BGOData.aligned (S n) (BGOData.SetBGO clv cry pm q e cfd led t d)
  ∧ BGOData.fBGO_Wave (BGOData.SetBGO clv cry pm q e cfd led t d) = BGOData.fBGO_Wave d
  ∧ BGOData.GetBGOMultiplicity d = Z.of_nat n
  ∧ BGOData.GetBGOMultiplicity (BGOData.SetBGO clv cry pm q e cfd led t d)
    = Z.of_nat n + 1.
Proof.
  intros (H1 & H2 & H3 & H4 & H5 & H6 & H7 & H8) Hn.
  unfold BGOData.aligned, BGOData.GetBGOMultiplicity. cbn.
  rewrite !length_app, H1, H2, H3, H4, H5, H6, H7, H8. cbn [length].
  split_and!; try lia; try reflexivity.
  - apply Z.mod_small. lia.
  - rewrite Z.mod_small; lia.
Qed.

Lemma SetBGO_keeps_aligned_witness :
  BGOData.aligned 1 BGOData.one_hit
  ∧ BGOData.fBGO_Wave BGOData.one_hit = BGOData.fBGO_Wave BGOData.empty
  ∧ BGOData.GetBGOMultiplicity BGOData.empty = 0
  ∧ BGOData.GetBGOMultiplicity BGOData.one_hit = 0 + 1.
Proof.
  apply (SetBGO_keeps_aligned 0 3 1 2 1200 511.5 10.25 11.5 0 BGOData.empty).
  - repeat split.
  - lia.
Defined.

(** X11: what [SetBGO] stores can be read back.  On aligned data of [n]
    hits, after [SetBGO] each of the eight getters returns at index [n] the
    value just given, and at every index below [n] what it returned before. *)
Theorem SetBGO_then_get (n : nat) (clv cry pm q : Z) (e cfd led t : Double_t)
    (d : BGOData.TBGOData) :
  BGOData.aligned n d →
  let d' := BGOData.SetBGO clv cry pm q e cfd led t d in
  (BGOData.GetBGOCloverNumber (N.of_nat n) d' = BGOData.Returns clv d'
   ∧ BGOData.GetBGOCoreNumber (N.of_nat n) d' = BGOData.Returns cry d'
   ∧ BGOData.GetBGOPmNbr (N.of_nat n) d' = BGOData.Returns pm d'
   ∧ BGOData.GetBGOCharge (N.of_nat n) d' = BGOData.Returns q d'
   ∧ BGOData.GetBGOEnergy (N.of_nat n) d' = BGOData.Returns e d'
   ∧ BGOData.GetBGOCFD (N.of_nat n) d' = BGOData.Returns cfd d'
   ∧ BGOData.GetBGOLED (N.of_nat n) d' = BGOData.Returns led d'
   ∧ BGOData.GetBGOTime (N.of_nat n) d' = BGOData.Returns t d')
  ∧ ∀ i : N, (N.to_nat i < n)%nat →
      BGOData.returned (BGOData.GetBGOCloverNumber i d')
        = BGOData.returned (BGOData.GetBGOCloverNumber i d)
      ∧ BGOData.returned (BGOData.GetBGOCoreNumber i d')
        = BGOData.returned (BGOData.GetBGOCoreNumber i d)
      ∧ BGOData.returned (BGOData.GetBGOPmNbr i d')
        = BGOData.returned (BGOData.GetBGOPmNbr i d)
      ∧ BGOData.returned (BGOData.GetBGOCharge i d')
        = BGOData.returned (BGOData.GetBGOCharge i d)
      ∧ BGOData.returned (BGOData.GetBGOEnergy i d')
        = BGOData.returned (BGOData.GetBGOEnergy i d)
      ∧ BGOData.returned (BGOData.GetBGOCFD i d')
        = BGOData.returned (BGOData.GetBGOCFD i d)
      ∧ BGOData.returned (BGOData.GetBGOLED i d')
        = BGOData.returned (BGOData.GetBGOLED i d)
      ∧ BGOData.returned (BGOData.GetBGOTime i d')
        = BGOData.returned (BGOData.GetBGOTime i d).
Proof.
  intros (H1 & H2 & H3 & H4 & H5 & H6 & H7 & H8) d'. split.
  - split_and!; apply at_snoc_new; rewrite Nat2N.id; cbn; congruence.
  - intros i Hi. split_and!; apply at_snoc_old; lia.
Qed.

Lemma SetBGO_then_get_witness :
  let d' := BGOData.SetBGO 4 0 1 900 480 9.5 9.75 1 BGOData.one_hit in
  (BGOData.GetBGOCloverNumber (N.of_nat 1) d' = BGOData.Returns 4 d'
   ∧ BGOData.GetBGOCoreNumber (N.of_nat 1) d' = BGOData.Returns 0 d'
   ∧ BGOData.GetBGOPmNbr (N.of_nat 1) d' = BGOData.Returns 1 d'
   ∧ BGOData.GetBGOCharge (N.of_nat 1) d' = BGOData.Returns 900 d'
   ∧ BGOData.GetBGOEnergy (N.of_nat 1) d' = BGOData.Returns 480%float d'
   ∧ BGOData.GetBGOCFD (N.of_nat 1) d' = BGOData.Returns 9.5%float d'
   ∧ BGOData.GetBGOLED (N.of_nat 1) d' = BGOData.Returns 9.75%float d'
   ∧ BGOData.GetBGOTime (N.of_nat 1) d' = BGOData.Returns 1%float d')
  ∧ ∀ i : N, (N.to_nat i < 1)%nat →
      BGOData.returned (BGOData.GetBGOCloverNumber i d')
        = BGOData.returned (BGOData.GetBGOCloverNumber i BGOData.one_hit)
      ∧ BGOData.returned (BGOData.GetBGOCoreNumber i d')
        = BGOData.returned (BGOData.GetBGOCoreNumber i BGOData.one_hit)
      ∧ BGOData.returned (BGOData.GetBGOPmNbr i d')
        = BGOData.returned (BGOData.GetBGOPmNbr i BGOData.one_hit)
      ∧ BGOData.returned (BGOData.GetBGOCharge i d')
        = BGOData.returned (BGOData.GetBGOCharge i BGOData.one_hit)
      ∧ BGOData.returned (BGOData.GetBGOEnergy i d')
        = BGOData.returned (BGOData.GetBGOEnergy i BGOData.one_hit)
      ∧ BGOData.returned (BGOData.GetBGOCFD i d')
        = BGOData.returned (BGOData.GetBGOCFD i BGOData.one_hit)
      ∧ BGOData.returned (BGOData.GetBGOLED i d')
        = BGOData.returned (BGOData.GetBGOLED i BGOData.one_hit)
      ∧ BGOData.returned (BGOData.GetBGOTime i d')
        = BGOData.returned (BGOData.GetBGOTime i BGOData.one_hit).
Proof.
  apply (SetBGO_then_get 1 4 0 1 900 480 9.5 9.75 1 BGOData.one_hit).
  repeat split.
Defined.

(** X12: on aligned data of [n] hits every getter of a per-hit value throws
    [std::out_of_range] for an index that is not below [n], the multiplicity
    itself included; the data are left as they were. *)
Theorem getters_out_of_range (n : nat) (i : N) (d : BGOData.TBGOData) :
  BGOData.aligned n d →
  (n ≤ N.to_nat i)%nat →
  BGOData.GetBGOCloverNumber i d = BGOData.Throws out_of_range d
  ∧ BGOData.GetBGOCoreNumber i d = BGOData.Throws out_of_range d
  ∧ BGOData.GetBGOPmNbr i d = BGOData.Throws out_of_range d
  ∧ BGOData.GetBGOCharge i d = BGOData.Throws out_of_range d
  ∧ BGOData.GetBGOEnergy i d = BGOData.Throws out_of_range d
  ∧ BGOData.GetBGOCFD i d = BGOData.Throws out_of_range d
  ∧ BGOData.GetBGOLED i d = BGOData.Throws out_of_range d
  ∧ BGOData.GetBGOTime i d = BGOData.Throws out_of_range d.
Proof.
  intros (H1 & H2 & H3 & H4 & H5 & H6 & H7 & H8) Hi.
  split_and!; apply at_beyond; lia.
Qed.

Lemma getters_out_of_range_witness :
  BGOData.GetBGOCloverNumber 1 BGOData.one_hit = BGOData.Throws out_of_range BGOData.one_hit
  ∧ BGOData.GetBGOCoreNumber 1 BGOData.one_hit = BGOData.Throws out_of_range BGOData.one_hit
  ∧ BGOData.GetBGOPmNbr 1 BGOData.one_hit = BGOData.Throws out_of_range BGOData.one_hit
  ∧ BGOData.GetBGOCharge 1 BGOData.one_hit = BGOData.Throws out_of_range BGOData.one_hit
  ∧ BGOData.GetBGOEnergy 1 BGOData.one_hit = BGOData.Throws out_of_range BGOData.one_hit
  ∧ BGOData.GetBGOCFD 1 BGOData.one_hit = BGOData.Throws out_of_range BGOData.one_hit
  ∧ BGOData.GetBGOLED 1 BGOData.one_hit = BGOData.Throws out_of_range BGOData.one_hit
  ∧ BGOData.GetBGOTime 1 BGOData.one_hit = BGOData.Throws out_of_range BGOData.one_hit.
Proof.
  apply (getters_out_of_range 1 1 BGOData.one_hit).
  - repeat split.
  - vm_compute. lia.
Defined.

Lemma substring_0_1 (s : string) :
  String.substring 0 1 s = match s with
                           | EmptyString => EmptyString
                           | String c _ => String c EmptyString
                           end.
Proof. destruct s as [|c [|c' rest]]; reflexivity. Qed.

Lemma string_compare_refl (s : string) : String.compare s s = Eq.
Proof.
  induction s as [|c s IH]; [reflexivity|].
  cbn [String.compare]. unfold Ascii.compare. rewrite N.compare_refl. exact IH.
Qed.

Lemma compare_0_1_is_true (s t : string) :
  BGOData.compare_0_1_is s t = true ↔ String.substring 0 1 s = t.
Proof.
  unfold BGOData.compare_0_1_is. split.
  - destruct (String.compare _ t) eqn:E; try discriminate.
    intros _. apply String.compare_eq_iff, E.
  - intros <-. rewrite string_compare_refl. reflexivity.
Qed.

Lemma compare_0_1_is_letter (s : string) (c : Ascii.ascii) :
  BGOData.compare_0_1_is s (String c EmptyString) = true
  ↔ ∃ rest, s = String c rest.
Proof.
  rewrite compare_0_1_is_true, substring_0_1. split.
  - destruct s as [|c' rest]; [discriminate|]. intros [= ->]. eauto.
  - intros (rest & ->). reflexivity.
Qed.

(** X13: the crystal number that [SetBGO] records for a fragment is decided
    by the first character of the array subposition alone, case-sensitively:
    0 exactly for a leading "B", 1 for "G", 2 for "R", 3 for "W", and 5 for
    every other string, the empty one included; 4 is never recorded. *)
Theorem CrystalNbr_of_first_letter (s : string) :
  (BGOData.CrystalNbr_of s = 0 ↔ ∃ rest, s = "B" +:+ rest)
  ∧ (BGOData.CrystalNbr_of s = 1 ↔ ∃ rest, s = "G" +:+ rest)
  ∧ (BGOData.CrystalNbr_of s = 2 ↔ ∃ rest, s = "R" +:+ rest)
  ∧ (BGOData.CrystalNbr_of s = 3 ↔ ∃ rest, s = "W" +:+ rest)
  ∧ (BGOData.CrystalNbr_of s = 5
     ↔ ¬ ∃ rest, s = "B" +:+ rest ∨ s = "G" +:+ rest ∨ s = "R" +:+ rest
                 ∨ s = "W" +:+ rest)
  ∧ BGOData.CrystalNbr_of s ≠ 4.
Proof.
  unfold BGOData.CrystalNbr_of.
  pose proof (compare_0_1_is_letter s) as L.
  destruct (BGOData.compare_0_1_is s "B") eqn:EB.
  { apply L in EB as (rest & ->).
    split_and!; try (split; [discriminate | intros (r & [=])]); try discriminate.
    - split; [eauto | reflexivity].
    - split; [discriminate|]. intros Hn. exfalso. apply Hn. exists rest. left. reflexivity. }
  destruct (BGOData.compare_0_1_is s "G") eqn:EG.
  { apply L in EG as (rest & ->).
    split_and!; try (split; [discriminate | intros (r & [=])]); try discriminate.
    - split; [eauto | reflexivity].
    - split; [discriminate|]. intros Hn. exfalso. apply Hn. exists rest. right. left. reflexivity. }
  destruct (BGOData.compare_0_1_is s "R") eqn:ER.
  { apply L in ER as (rest & ->).
    split_and!; try (split; [discriminate | intros (r & [=])]); try discriminate.
    - split; [eauto | reflexivity].
    - split; [discriminate|]. intros Hn. exfalso. apply Hn. exists rest.
      right. right. left. reflexivity. }
  destruct (BGOData.compare_0_1_is s "W") eqn:EW.
  { apply L in EW as (rest & ->).
    split_and!; try (split; [discriminate | intros (r & [=])]); try discriminate.
    - split; [eauto | reflexivity].
    - split; [discriminate|]. intros Hn. exfalso. apply Hn. exists rest.
      right. right. right. reflexivity. }
  assert (HB : ¬ ∃ rest, s = "B" +:+ rest) by (intros Hx; apply L in Hx; congruence).
  assert (HG : ¬ ∃ rest, s = "G" +:+ rest) by (intros Hx; apply L in Hx; congruence).
  assert (HR : ¬ ∃ rest, s = "R" +:+ rest) by (intros Hx; apply L in Hx; congruence).
  assert (HW : ¬ ∃ rest, s = "W" +:+ rest) by (intros Hx; apply L in Hx; congruence).
  split_and!; try (split; [discriminate | intros Hx; contradiction]); try discriminate.
  split; [|reflexivity]. intros _ (rest & [E | [E | [E | E]]]); eauto.
Qed.

Section FragmentProperties.

Variables (TFragment MNEMONIC : Type).
Variable arrayposition : MNEMONIC → Z.
Variable arraysubposition : MNEMONIC → string.
Variable segment : MNEMONIC → Z.
Variable Charge : TFragment → list Z.
Variable Cfd : TFragment → list Double_t.
Variable Led : TFragment → list Double_t.
Variable TimeToTrig : TFragment → Double_t.

Local Abbreviation SetBGO_frag :=
  (BGOData.SetBGO_fragment TFragment MNEMONIC arrayposition arraysubposition segment
     Charge Cfd Led TimeToTrig).

(** X14: [SetBGO] on a fragment never stores an energy.  On aligned data of
    [n] hits and a fragment with a charge, a CFD and an LED value, the call
    returns with seven vectors grown to [n + 1], filled from the fragment and
    the mnemonic, while the energy vector still holds [n] entries: the
    multiplicity is [n + 1], yet [GetBGOEnergy] at the new hit, index [n],
    throws [std::out_of_range]. *)
Theorem SetBGO_fragment_stores_no_energy (frag : TFragment) (mn : MNEMONIC)
    (n : nat) (d : BGOData.TBGOData) (q : Z) (qs : list Z)
    (cfd led : Double_t) (cfds leds : list Double_t) :
  BGOData.aligned n d →
  Z.of_nat n + 1 < 2 ^ 32 →
  Charge frag = q :: qs →
  Cfd frag = cfd :: cfds →
  Led frag = led :: leds →
  ∃ d', SetBGO_frag frag mn d = BGOData.Returns tt d'
    ∧ BGOData.GetBGOMultiplicity d' = Z.of_nat n + 1
    ∧ BGOData.GetBGOCloverNumber (N.of_nat n) d' = BGOData.Returns (arrayposition mn) d'
    ∧ BGOData.GetBGOCoreNumber (N.of_nat n) d'
      = BGOData.Returns (BGOData.CrystalNbr_of (arraysubposition mn)) d'
    ∧ BGOData.GetBGOPmNbr (N.of_nat n) d' = BGOData.Returns (segment mn) d'
    ∧ BGOData.GetBGOCharge (N.of_nat n) d' = BGOData.Returns q d'
    ∧ BGOData.GetBGOCFD (N.of_nat n) d' = BGOData.Returns cfd d'
    ∧ BGOData.GetBGOLED (N.of_nat n) d' = BGOData.Returns led d'
    ∧ BGOData.GetBGOTime (N.of_nat n) d' = BGOData.Returns (TimeToTrig frag) d'
    ∧ BGOData.fBGO_Energy d' = BGOData.fBGO_Energy d
    ∧ BGOData.GetBGOEnergy (N.of_nat n) d' = BGOData.Throws out_of_range d'
    ∧ ¬ BGOData.aligned (S n) d'.
Proof.
  intros (H1 & H2 & H3 & H4 & H5 & H6 & H7 & H8) Hn Eq Ecfd Eled.
  unfold BGOData.SetBGO_fragment, BGOData.at_.
  rewrite Eq, Ecfd, Eled. cbn [lookup list_lookup N.to_nat].
  eexists. split; [reflexivity|].
  split_and!.
  - unfold BGOData.GetBGOMultiplicity. cbn. rewrite length_app, H3. cbn [length].
    rewrite Z.mod_small; lia.
  - apply at_snoc_new. rewrite Nat2N.id. cbn. congruence.
  - apply at_snoc_new. rewrite Nat2N.id. cbn. congruence.
  - apply at_snoc_new. rewrite Nat2N.id. cbn. congruence.
  - apply at_snoc_new. rewrite Nat2N.id. cbn. congruence.
  - apply at_snoc_new. rewrite Nat2N.id. cbn. congruence.
  - apply at_snoc_new. rewrite Nat2N.id. cbn. congruence.
  - apply at_snoc_new. rewrite Nat2N.id. cbn. congruence.
  - reflexivity.
  - apply at_beyond. rewrite Nat2N.id. cbn. lia.
  - intros (_ & _ & _ & _ & H5' & _). cbn in H5'. lia.
Qed.

(** X15: a fragment that lacks a charge, a CFD or an LED value leaves a
    half-recorded hit behind.  [SetBGO] then throws [std::out_of_range], but
    only after the clover, crystal and PM numbers have been stored: the PM
    vector, hence the multiplicity, has grown by one, while the time and
    energy vectors are as before. *)
Theorem SetBGO_fragment_throws_half_way (frag : TFragment) (mn : MNEMONIC)
    (d : BGOData.TBGOData) :
  Charge frag = [] ∨ Cfd frag = [] ∨ Led frag = [] →
  ∃ d', SetBGO_frag frag mn d = BGOData.Throws out_of_range d'
    ∧ BGOData.fBGO_CloverNbr d' = BGOData.fBGO_CloverNbr d ++ [arrayposition mn]
    ∧ BGOData.fBGO_CrystalNbr d'
      = BGOData.fBGO_CrystalNbr d ++ [BGOData.CrystalNbr_of (arraysubposition mn)]
    ∧ BGOData.fBGO_PmNbr d' = BGOData.fBGO_PmNbr d ++ [segment mn]
    ∧ BGOData.fBGO_Time d' = BGOData.fBGO_Time d
    ∧ BGOData.fBGO_Energy d' = BGOData.fBGO_Energy d.
Proof.
  intros Hempty.
  unfold BGOData.SetBGO_fragment, BGOData.at_.
  cbn [N.to_nat].
  destruct (Charge frag) as [|q qs].
  { eexists. split; [reflexivity|]. split_and!; reflexivity. }
  destruct (Cfd frag) as [|cfd cfds].
  { eexists. split; [reflexivity|]. split_and!; reflexivity. }
  destruct (Led frag) as [|led leds].
  { eexists. split; [reflexivity|]. split_and!; reflexivity. }
  exfalso. destruct Hempty as [E | [E | E]]; discriminate.
Qed.

End FragmentProperties.

Lemma SetBGO_fragment_stores_no_energy_witness :
  ∃ d', BGOData.SetBGO_fragment BGOData.frag BGOData.mnemonic
          BGOData.mn_arrayposition BGOData.mn_arraysubposition BGOData.mn_segment
          BGOData.frag_Charge BGOData.frag_Cfd BGOData.frag_Led BGOData.frag_TimeToTrig
          BGOData.full_frag BGOData.green
          BGOData.one_hit
        = BGOData.Returns tt d'
    ∧ BGOData.GetBGOMultiplicity d' = Z.of_nat 1 + 1
    ∧ BGOData.GetBGOCloverNumber (N.of_nat 1) d' = BGOData.Returns 6 d'
    ∧ BGOData.GetBGOCoreNumber (N.of_nat 1) d'
      = BGOData.Returns (BGOData.CrystalNbr_of "GN") d'
    ∧ BGOData.GetBGOPmNbr (N.of_nat 1) d' = BGOData.Returns 3 d'
    ∧ BGOData.GetBGOCharge (N.of_nat 1) d' = BGOData.Returns 850 d'
    ∧ BGOData.GetBGOCFD (N.of_nat 1) d' = BGOData.Returns 12.5%float d'
    ∧ BGOData.GetBGOLED (N.of_nat 1) d' = BGOData.Returns 13%float d'
    ∧ BGOData.GetBGOTime (N.of_nat 1) d' = BGOData.Returns 7%float d'
    ∧ BGOData.fBGO_Energy d' = BGOData.fBGO_Energy BGOData.one_hit
    ∧ BGOData.GetBGOEnergy (N.of_nat 1) d' = BGOData.Throws out_of_range d'
    ∧ ¬ BGOData.aligned 2 d'.
Proof.
  apply (SetBGO_fragment_stores_no_energy BGOData.frag BGOData.mnemonic
           BGOData.mn_arrayposition BGOData.mn_arraysubposition BGOData.mn_segment
           BGOData.frag_Charge BGOData.frag_Cfd BGOData.frag_Led BGOData.frag_TimeToTrig
           BGOData.full_frag BGOData.green
           1%nat BGOData.one_hit 850 [] 12.5%float 13%float [] []).
  - repeat split.
  - lia.
  - reflexivity.
  - reflexivity.
  - reflexivity.
Defined.

Lemma SetBGO_fragment_throws_half_way_witness :
  ∃ d', BGOData.SetBGO_fragment BGOData.frag BGOData.mnemonic
          BGOData.mn_arrayposition BGOData.mn_arraysubposition BGOData.mn_segment
          BGOData.frag_Charge BGOData.frag_Cfd BGOData.frag_Led BGOData.frag_TimeToTrig
          BGOData.no_cfd_frag BGOData.green
          BGOData.one_hit
        = BGOData.Throws out_of_range d'
    ∧ BGOData.fBGO_CloverNbr d' = BGOData.fBGO_CloverNbr BGOData.one_hit ++ [6]
    ∧ BGOData.fBGO_CrystalNbr d'
      = BGOData.fBGO_CrystalNbr BGOData.one_hit ++ [BGOData.CrystalNbr_of "GN"]
    ∧ BGOData.fBGO_PmNbr d' = BGOData.fBGO_PmNbr BGOData.one_hit ++ [3]
    ∧ BGOData.fBGO_Time d' = BGOData.fBGO_Time BGOData.one_hit
    ∧ BGOData.fBGO_Energy d' = BGOData.fBGO_Energy BGOData.one_hit.
Proof.
  apply (SetBGO_fragment_throws_half_way BGOData.frag BGOData.mnemonic
           BGOData.mn_arrayposition BGOData.mn_arraysubposition BGOData.mn_segment
           BGOData.frag_Charge BGOData.frag_Cfd BGOData.frag_Led BGOData.frag_TimeToTrig
           BGOData.no_cfd_frag BGOData.green
           BGOData.one_hit).
  right. left. reflexivity.
Defined.

(** * TGRSIRunInfo: merging run information *)

Lemma Add_consecutive (runinfo this : GRSIRunInfo.TGRSIRunInfo) :
  GRSIRunInfo.fRunNumber runinfo = GRSIRunInfo.fRunNumber this →
  GRSIRunInfo.fSubRunNumber runinfo = GRSIRunInfo.fSubRunNumber this + 1 →
  GRSIRunInfo.fSubRunNumber this + 1 <= Int_t_max →
  Int_t_min <= GRSIRunInfo.fSubRunNumber this + 1 →
  GRSIRunInfo.Add runinfo this
  = Some (GRSIRunInfo.mkTGRSIRunInfo (GRSIRunInfo.fRunNumber this)
            (GRSIRunInfo.fSubRunNumber runinfo) (GRSIRunInfo.fRunStart this)
            (GRSIRunInfo.fRunStop runinfo) (GRSIRunInfo.added_length this runinfo)).
Proof.
  intros En Es Hmax Hmin. unfold GRSIRunInfo.Add.
  rewrite bool_decide_false by (intros Hne; apply Hne, En).
  rewrite bool_decide_true by (unfold in_Int_t; lia).
  rewrite bool_decide_true by exact Es. reflexivity.
Qed.

Lemma Add_other_run (runinfo this : GRSIRunInfo.TGRSIRunInfo) :
  GRSIRunInfo.fRunNumber runinfo ≠ GRSIRunInfo.fRunNumber this →
  GRSIRunInfo.Add runinfo this
  = Some (GRSIRunInfo.mkTGRSIRunInfo 0 (-1) 0 0 (GRSIRunInfo.added_length this runinfo)).
Proof.
  intros Hne. unfold GRSIRunInfo.Add. rewrite bool_decide_true by exact Hne. reflexivity.
Qed.

Lemma default_last_cons {A B : Type} (f : A → B) (b : B) (x : A) (l : list A) :
  default b (f <$> last (x :: l)) = default (f x) (f <$> last l).
Proof.
  destruct l as [|y l]; [reflexivity|].
  change (last (x :: y :: l)) with (last (y :: l)).
  destruct (last (y :: l)) eqn:E; [reflexivity|].
  apply last_None in E. discriminate.
Qed.

(** X16: sub-runs added in order extend the run.  If the infos added are,
    in order, the next [k] sub-runs of the same run (sub-run numbers
    [s + 1], ..., [s + k] after the current [s]), then [Add] accepts each one:
    the run number and the run start are kept, the sub-run number ends at
    [s + k] and the run stop is the stop of the last info added. *)
Theorem AddAll_consecutive (l : list GRSIRunInfo.TGRSIRunInfo)
    (this : GRSIRunInfo.TGRSIRunInfo) :
  (∀ (i : nat) (x : GRSIRunInfo.TGRSIRunInfo), l !! i = Some x →
     GRSIRunInfo.fRunNumber x = GRSIRunInfo.fRunNumber this
     ∧ GRSIRunInfo.fSubRunNumber x = GRSIRunInfo.fSubRunNumber this + 1 + Z.of_nat i) →
  Int_t_min <= GRSIRunInfo.fSubRunNumber this + 1 →
  GRSIRunInfo.fSubRunNumber this + Z.of_nat (length l) <= Int_t_max →
  ∃ r, GRSIRunInfo.AddAll l this = Some r
       ∧ GRSIRunInfo.fRunNumber r = GRSIRunInfo.fRunNumber this
       ∧ GRSIRunInfo.fSubRunNumber r = GRSIRunInfo.fSubRunNumber this + Z.of_nat (length l)
       ∧ GRSIRunInfo.fRunStart r = GRSIRunInfo.fRunStart this
       ∧ GRSIRunInfo.fRunStop r
         = default (GRSIRunInfo.fRunStop this) (GRSIRunInfo.fRunStop <$> last l).
Proof.
  revert this. induction l as [|x l IH]; intros this Hl Hmin Hmax.
  - exists this. cbn. split_and!; try reflexivity. lia.
  - destruct (Hl 0%nat x eq_refl) as [En Es]. cbn [length] in Hmax.
    cbn [GRSIRunInfo.AddAll].
    rewrite (Add_consecutive x this En) by lia.
    set (this' := GRSIRunInfo.mkTGRSIRunInfo _ _ _ _ _).
    destruct (IH this') as (r & Er & Hn & Hs & Hst & Hsp).
    + intros i y Hy. destruct (Hl (S i) y Hy) as [En' Es'].
      unfold this'. cbn. split; [exact En'|]. lia.
    + unfold this'. cbn. lia.
    + unfold this'. cbn. lia.
    + exists r. split; [exact Er|]. unfold this' in *. cbn in Hn, Hs, Hst, Hsp.
      split_and!; [exact Hn | cbn [length]; lia | exact Hst |].
      rewrite Hsp. symmetry. apply default_last_cons.
Qed.

Lemma AddAll_consecutive_witness :
  ∃ r, GRSIRunInfo.AddAll [GRSIRunInfo.sub1; GRSIRunInfo.sub2] GRSIRunInfo.sub0 = Some r
       ∧ GRSIRunInfo.fRunNumber r = GRSIRunInfo.fRunNumber GRSIRunInfo.sub0
       ∧ GRSIRunInfo.fSubRunNumber r
         = GRSIRunInfo.fSubRunNumber GRSIRunInfo.sub0
           + Z.of_nat (length [GRSIRunInfo.sub1; GRSIRunInfo.sub2])
       ∧ GRSIRunInfo.fRunStart r = GRSIRunInfo.fRunStart GRSIRunInfo.sub0
       ∧ GRSIRunInfo.fRunStop r
         = default (GRSIRunInfo.fRunStop GRSIRunInfo.sub0)
             (GRSIRunInfo.fRunStop <$> last [GRSIRunInfo.sub1; GRSIRunInfo.sub2]).
Proof.
  apply (AddAll_consecutive [GRSIRunInfo.sub1; GRSIRunInfo.sub2] GRSIRunInfo.sub0).
  - intros [|[|i]] x E; cbn in E; [| |discriminate];
      injection E as <-; split; reflexivity.
  - vm_compute. discriminate.
  - vm_compute. discriminate.
Defined.

(** X17: a foreign run number wipes the run, for good.  Adding an info of a
    different run number sets run number 0, sub-run -1 and start and stop 0;
    and as long as the infos added after it carry run numbers other than 0,
    every one of them is again a mismatch and the four values stay there. *)
Theorem AddAll_after_mismatch (x : GRSIRunInfo.TGRSIRunInfo)
    (l : list GRSIRunInfo.TGRSIRunInfo) (this : GRSIRunInfo.TGRSIRunInfo) :
  GRSIRunInfo.fRunNumber x ≠ GRSIRunInfo.fRunNumber this →
  Forall (λ y, GRSIRunInfo.fRunNumber y ≠ 0) l →
  ∃ r, GRSIRunInfo.AddAll (x :: l) this = Some r
       ∧ GRSIRunInfo.fRunNumber r = 0
       ∧ GRSIRunInfo.fSubRunNumber r = -1
       ∧ GRSIRunInfo.fRunStart r = 0%float
       ∧ GRSIRunInfo.fRunStop r = 0%float.
Proof.
  intros Hne Hl. cbn [GRSIRunInfo.AddAll]. rewrite (Add_other_run x this Hne).
  generalize (GRSIRunInfo.added_length this x). intros len.
  revert len. induction Hl as [|y l Hy Hl IH]; intros len.
  - eexists. split; [reflexivity|]. split_and!; reflexivity.
  - cbn [GRSIRunInfo.AddAll]. rewrite Add_other_run by exact Hy. apply IH.
Qed.

Lemma AddAll_after_mismatch_witness :
  ∃ r, GRSIRunInfo.AddAll [GRSIRunInfo.other_run; GRSIRunInfo.sub1; GRSIRunInfo.sub2]
         GRSIRunInfo.sub0 = Some r
       ∧ GRSIRunInfo.fRunNumber r = 0
       ∧ GRSIRunInfo.fSubRunNumber r = -1
       ∧ GRSIRunInfo.fRunStart r = 0%float
       ∧ GRSIRunInfo.fRunStop r = 0%float.
Proof.
  apply (AddAll_after_mismatch GRSIRunInfo.other_run
           [GRSIRunInfo.sub1; GRSIRunInfo.sub2] GRSIRunInfo.sub0).
  - vm_compute. discriminate.
  - repeat constructor; vm_compute; discriminate.
Defined.

Lemma Add_consistent (runinfo this r : GRSIRunInfo.TGRSIRunInfo) :
  GRSIRunInfo.consistent this →
  GRSIRunInfo.Add runinfo this = Some r →
  GRSIRunInfo.consistent r.
Proof.
  intros [Hge Hz] E. unfold GRSIRunInfo.Add in E. unfold GRSIRunInfo.consistent.
  repeat case_bool_decide; try discriminate; injection E as <-; cbn.
  - split; [lia | intros _; split; reflexivity].
  - split; [lia | intros; lia].
  - split; [lia | intros _; split; reflexivity].
Qed.

(** X18: the sub-run bookkeeping stays consistent under any sequence of
    [Add]: if the sub-run number is at least -1 and the value -1 goes with
    start and stop both 0, the same holds after adding any infos whatever,
    whenever the additions are defined. *)
Theorem AddAll_consistent (l : list GRSIRunInfo.TGRSIRunInfo)
    (this r : GRSIRunInfo.TGRSIRunInfo) :
  GRSIRunInfo.consistent this →
  GRSIRunInfo.AddAll l this = Some r →
  GRSIRunInfo.consistent r.
Proof.
  revert this. induction l as [|x l IH]; intros this Hc E.
  - cbn in E. congruence.
  - cbn [GRSIRunInfo.AddAll] in E.
    destruct (GRSIRunInfo.Add x this) as [this'|] eqn:Ex; [|discriminate].
    apply (IH this'); [|exact E]. apply (Add_consistent x this); assumption.
Qed.

Lemma AddAll_consistent_witness :
  GRSIRunInfo.consistent
    (GRSIRunInfo.mkTGRSIRunInfo 29038 (-1) 0 0 (600 + 600 + 600)).
Proof.
  apply (AddAll_consistent [GRSIRunInfo.sub2; GRSIRunInfo.sub1] GRSIRunInfo.sub0).
  - split; [vm_compute; discriminate | vm_compute; discriminate].
  - vm_compute. reflexivity.
Defined.

(** X19: run infos whose length is not positive (zero, negative or not a
    number) never change the accumulated run length, whatever their run and
    sub-run numbers. *)
Theorem AddAll_ignores_empty_lengths (l : list GRSIRunInfo.TGRSIRunInfo)
    (this r : GRSIRunInfo.TGRSIRunInfo) :
  Forall (λ x, (0 <? GRSIRunInfo.fRunLength x)%float = false) l →
  GRSIRunInfo.AddAll l this = Some r →
  GRSIRunInfo.fRunLength r = GRSIRunInfo.fRunLength this.
Proof.
  intros Hl. revert this. induction Hl as [|x l Hx Hl IH]; intros this E.
  - cbn in E. congruence.
  - cbn [GRSIRunInfo.AddAll] in E.
    destruct (GRSIRunInfo.Add x this) as [this'|] eqn:Ex; [|discriminate].
    rewrite (IH this' E).
    unfold GRSIRunInfo.Add in Ex.
    assert (El : GRSIRunInfo.added_length this x = GRSIRunInfo.fRunLength this).
    { unfold GRSIRunInfo.added_length. rewrite Hx. reflexivity. }
    repeat case_bool_decide; try discriminate; injection Ex as <-; exact El.
Qed.

Lemma AddAll_ignores_empty_lengths_witness :
  GRSIRunInfo.fRunLength
    (GRSIRunInfo.mkTGRSIRunInfo 29038 1 1000 2200 600)
  = GRSIRunInfo.fRunLength GRSIRunInfo.sub0.
Proof.
  apply (AddAll_ignores_empty_lengths
           [GRSIRunInfo.mkTGRSIRunInfo 29038 1 1600 2200 nan] GRSIRunInfo.sub0).
  - repeat constructor.
  - vm_compute. reflexivity.
Defined.

(** * TGRSIRunInfo: the version string *)

Section VersionProperties.

Variables (ALERTTEXT RESET_COLOR : string).

Local Abbreviation Set_ := (GRSIRunInfo.SetGRSIVersion ALERTTEXT RESET_COLOR).

Local Abbreviation warning v :=
  (ALERTTEXT +:+ "WARNING; VERSION ALREADY SET TO " +:+ v +:+ "!!"
   +:+ RESET_COLOR +:+ GRSIRunInfo.newline).

Lemma length_0_iff (v : string) : String.length v = 0%nat ↔ v = "".
Proof. destruct v; split; (reflexivity || discriminate). Qed.

Lemma SetGRSIVersion_unset (ver : string) (out : list string) :
  Set_ ver (GRSIRunInfo.mkStatics "" out) = GRSIRunInfo.mkStatics ver out.
Proof. reflexivity. Qed.

Lemma SetGRSIVersion_already_set (ver v : string) (out : list string) :
  v ≠ "" →
  Set_ ver (GRSIRunInfo.mkStatics v out) = GRSIRunInfo.mkStatics v (out ++ [warning v]).
Proof.
  intros Hv. unfold GRSIRunInfo.SetGRSIVersion. cbn [GRSIRunInfo.fGRSIVersion].
  rewrite bool_decide_true; [reflexivity|].
  intros E. apply Hv, length_0_iff, E.
Qed.

Lemma SetGRSIVersion_kept (vs : list string) (v : string) (out : list string) :
  v ≠ "" →
  foldl (λ s ver, Set_ ver s) (GRSIRunInfo.mkStatics v out) vs
  = GRSIRunInfo.mkStatics v (out ++ replicate (length vs) (warning v)).
Proof.
  intros Hv. revert out. induction vs as [|ver vs IH]; intros out.
  - cbn. rewrite app_nil_r. reflexivity.
  - cbn [foldl length replicate].
    rewrite (SetGRSIVersion_already_set ver v out Hv), IH, <- app_assoc.
    reflexivity.
Qed.

(** X20: the version string is written once.  Starting with no version set,
    a sequence of [SetGRSIVersion] calls leaves the first non-empty version
    given: empty versions before it change nothing, and every call after it,
    whatever it asks for, is refused with one warning line naming the version
    that stays. *)
Theorem SetGRSIVersion_write_once (pre post : list string) (v : string)
    (out : list string) :
  Forall (λ x, x = "") pre →
  v ≠ "" →
  foldl (λ s ver, GRSIRunInfo.SetGRSIVersion ALERTTEXT RESET_COLOR ver s)
    (GRSIRunInfo.mkStatics "" out) (pre ++ v :: post)
  = GRSIRunInfo.mkStatics v (out ++ replicate (length post) (warning v)).
Proof.
  intros Hpre Hv. rewrite foldl_app.
  assert (E : foldl (λ s ver, Set_ ver s) (GRSIRunInfo.mkStatics "" out) pre
              = GRSIRunInfo.mkStatics "" out).
  { induction Hpre as [|x pre -> _ IH]; [reflexivity|].
    cbn [foldl]. rewrite SetGRSIVersion_unset. exact IH. }
  rewrite E. cbn [foldl]. rewrite SetGRSIVersion_unset.
  apply SetGRSIVersion_kept, Hv.
Qed.

End VersionProperties.

Lemma SetGRSIVersion_write_once_witness :
  foldl (λ s ver, GRSIRunInfo.SetGRSIVersion "<alert>" "<reset>" ver s)
    (GRSIRunInfo.mkStatics "" []) ([""] ++ "v3.1.4" :: ["v4.0.0"; ""])
  = GRSIRunInfo.mkStatics "v3.1.4"
      ([] ++ replicate (length ["v4.0.0"; ""])
               ("<alert>" +:+ "WARNING; VERSION ALREADY SET TO " +:+ "v3.1.4" +:+ "!!"
                +:+ "<reset>" +:+ GRSIRunInfo.newline)).
Proof.
  apply (SetGRSIVersion_write_once "<alert>" "<reset>" [""] ["v4.0.0"; ""] "v3.1.4" []).
  - repeat constructor.
  - discriminate.
Defined.
